(** * dsmr4p1: reading and parsing P1 telegrams of Dutch smart meters

    A shallow embedding of the Go package [dsmr4p1] (files [dsmr4p1.go] and
    [telegram.go]) together with the properties of its checksum engine, its
    frame reader, its telegram parser and its value parsers.

    Conventions of the embedding:
    - a Go [byte] is an [ascii]; a [[]byte] is a [list byte]; a Go [string]
      is a Rocq [string]; the conversions [string(b)] and [[]byte(s)] are
      written out;
    - a [uint16] is a [Z] in [0, 65536); the bit operations of the source are
      [Z.land], [Z.lxor], [Z.shiftr];
    - a Go [error] value is an element of [error]; a function that returns
      [(x, err)] returns a pair whose second component is an [option error]
      ([None] is [nil]);
    - a run-time panic (index or slice bounds out of range) is the outcome
      [Panics]; a normal return is [Returns];
    - a [map[string][]string] is a [gmap string (list string)]. *)

From Stdlib Require Import ZArith List Ascii String Lia.
From Stdlib Require Import DecimalString.
From Stdlib Require Import Floats.PrimFloat Numbers.Cyclic.Int63.Uint63.
From stdpp Require Import gmap strings list.

(** ** Bytes, errors and outcomes *)

Abbreviation byte := ascii.

Definition byte_to_Z (b : byte) : Z := Z.of_N (N_of_ascii b).

(** [string(b)] and [[]byte(s)]. *)
Definition string_of_bytes (b : list byte) : string := string_of_list_ascii b.
Definition bytes_of_string (s : string) : list byte := list_ascii_of_string s.

Definition CR : byte := "013"%char.
Definition LF : byte := "010"%char.
Definition CRLF : string := String CR (String LF EmptyString).

(** The error values that occur: [io.EOF], [bufio.ErrInvalidUnreadByte], the
    values made by [errors.New], and the errors of other packages (a failing
    [io.Reader], [strconv], [time]), which carry their message. *)
Inductive error : Type :=
  | io_EOF
  | bufio_ErrInvalidUnreadByte
  | errors_New (msg : string)
  | foreign_error (pkg msg : string).

Global Instance error_eq_dec : EqDecision error.
Proof. solve_decision. Defined.

Inductive runtime_error : Type :=
  | index_out_of_range
  | slice_bounds_out_of_range.

Inductive outcome (A : Type) : Type :=
  | Returns (a : A)
  | Panics (p : runtime_error).
Arguments Returns {A} a.
Arguments Panics {A} p.

Global Instance outcome_ret : MRet outcome := fun _ a => Returns a.
Global Instance outcome_bind : MBind outcome := fun _ _ k o =>
  match o with
  | Returns a => k a
  | Panics p => Panics p
  end.

(** ** Package [strings] (and [bytes.Index]) *)

Module strings.

Definition HasPrefix (s prefix : string) : bool := String.prefix prefix s.

(** [strings.Index]: the position of the first occurrence, [None] for -1. *)
Fixpoint Index (s substr : string) : option nat :=
  if String.prefix substr s then Some 0
  else match s with
       | EmptyString => None
       | String _ s' => option_map S (Index s' substr)
       end.

Fixpoint take (n : nat) (s : string) : string :=
  match n, s with
  | S n', String c s' => String c (take n' s')
  | _, _ => EmptyString
  end.

Fixpoint drop (n : nat) (s : string) : string :=
  match n, s with
  | S n', String _ s' => drop n' s'
  | _, _ => s
  end.

(** The slice expression [s[lo:hi]]; it panics unless [lo <= hi <= len(s)]. *)
Definition slice (s : string) (lo hi : nat) : outcome string :=
  if (lo <=? hi)%nat && (hi <=? String.length s)%nat
  then Returns (take (hi - lo) (drop lo s))
  else Panics slice_bounds_out_of_range.

(** The index expression [s[i]]. *)
Definition at_index (s : string) (i : nat) : outcome byte :=
  match String.get i s with
  | Some c => Returns c
  | None => Panics index_out_of_range
  end.

(** [genSplit] for a non-empty separator: cut at the first occurrence of
    [sep], continue behind it. The number of cuts is bounded by
    [Count(s, sep)], which is at most [len(s)]: the fuel. *)
Fixpoint genSplit (fuel : nat) (s sep : string) : list string :=
  match fuel with
  | O => [s]
  | S fuel' =>
      match Index s sep with
      | None => [s]
      | Some m => take m s :: genSplit fuel' (drop (m + String.length sep) s) sep
      end
  end.

(** [strings.Split(s, sep)], for the non-empty separators of this package
    ("\r\n", "*" and ")("). *)
Definition Split (s sep : string) : list string :=
  genSplit (String.length s) s sep.

End strings.

Module bytes.
(** [bytes.Index] is [strings.Index] on byte slices. *)
Definition Index (b sep : list byte) : option nat :=
  strings.Index (string_of_bytes b) (string_of_bytes sep).
End bytes.

(** The slice expression [l[lo:hi]] on a slice of strings or bytes. *)
Definition slice_list {A} (l : list A) (lo hi : nat) : outcome (list A) :=
  if (lo <=? hi)%nat && (hi <=? length l)%nat
  then Returns (take (hi - lo) (drop lo l))
  else Panics slice_bounds_out_of_range.

(** ** Package [github.com/howeyc/crc16] *)

Module crc16.
Local Open Scope Z_scope.

(** The reversed form of the polynomial x^16 + x^15 + x^2 + 1. *)
Definition IBM : Z := 0xA001.

Record Table : Type := mkTable {
  entries : list Z;
  reversed : bool;
  noXOR : bool
}.

(** [tab.entries[i]] for a [byte] index: the table has 256 entries. *)
Definition entry (tab : Table) (i : Z) : Z := nth (Z.to_nat i) (entries tab) 0.

(** One round of the inner loop of [makeTable]. *)
Definition shift_round (poly crc : Z) : Z :=
  if Z.land crc 1 =? 1 then Z.lxor (Z.shiftr crc 1) poly else Z.shiftr crc 1.

Definition makeEntry (poly : Z) (i : Z) : Z := Nat.iter 8 (shift_round poly) i.

Definition makeTable (poly : Z) : Table :=
  {| entries := map (fun i => makeEntry poly (Z.of_nat i)) (seq 0 256);
     reversed := false;
     noXOR := false |}.

Definition MakeTableNoXOR (poly : Z) : Table :=
  let tab := makeTable poly in
  {| entries := entries tab; reversed := reversed tab; noXOR := true |}.

Definition IBMTable : Table := Eval vm_compute in makeTable IBM.

(** [byte(crc)]: the low eight bits. *)
Definition low_byte (crc : Z) : Z := Z.land crc 0xFF.

(** [^crc] on a [uint16]. *)
Definition complement (crc : Z) : Z := Z.lxor crc 0xFFFF.

Definition updateBitsReversed (crc : Z) (tab : Table) (p : list byte) : Z :=
  fold_left
    (fun crc v =>
       Z.lxor (entry tab (Z.lxor (low_byte (Z.shiftr crc 8)) (byte_to_Z v)))
              (Z.shiftl crc 8 mod 65536))
    p crc.

Definition update (crc : Z) (tab : Table) (p : list byte) : Z :=
  complement
    (fold_left
       (fun crc v =>
          Z.lxor (entry tab (Z.lxor (low_byte crc) (byte_to_Z v))) (Z.shiftr crc 8))
       p (complement crc)).

Definition updateNoXOR (crc : Z) (tab : Table) (p : list byte) : Z :=
  fold_left
    (fun crc v =>
       Z.lxor (entry tab (Z.lxor (low_byte crc) (byte_to_Z v))) (Z.shiftr crc 8))
    p crc.

Definition Update (crc : Z) (tab : Table) (p : list byte) : Z :=
  if reversed tab then updateBitsReversed crc tab p
  else if noXOR tab then updateNoXOR crc tab p
  else update crc tab p.

Definition Checksum (data : list byte) (tab : Table) : Z := Update 0 tab data.

End crc16.

(** ** Package [dsmr4p1]: the checksum *)

(** [ibmTableNoXOR = crc16.MakeTableNoXOR(crc16.IBM)]. *)
Definition ibmTableNoXOR : crc16.Table := Eval vm_compute in crc16.MakeTableNoXOR crc16.IBM.

(** [p1crc16]: the accumulator starts at 0; each byte [v] replaces it by
    [crc16.IBMTable[byte(crc)^v] ^ (crc >> 8)]. *)
Definition p1crc16 (data : list byte) : Z :=
  fold_left
    (fun crc v =>
       Z.lxor (crc16.entry crc16.IBMTable (Z.lxor (crc16.low_byte crc) (byte_to_Z v)))
              (Z.shiftr crc 8))
    data 0%Z.

(** [fmt.Sprintf("%04X", v)] for a [uint16]: four upper-case hexadecimal
    digits, most significant first. *)
Definition hex_digit (d : Z) : byte :=
  if (d <? 10)%Z then ascii_of_N (Z.to_N (48 + d)) else ascii_of_N (Z.to_N (55 + d)).

Definition Sprintf_04X (v : Z) : string :=
  string_of_bytes
    [hex_digit (Z.shiftr v 12 mod 16); hex_digit (Z.shiftr v 8 mod 16);
     hex_digit (Z.shiftr v 4 mod 16); hex_digit (v mod 16)].

(** ** Package [bufio]: a [Reader] over an [io.Reader] *)

(** What the underlying [io.Reader] hands out, in order: a byte, or a failed
    read. After the last item every read reports [io.EOF]. *)
Inductive item : Type :=
  | Data (b : byte)
  | Fault (e : error).

Global Instance item_eq_dec : EqDecision item.
Proof. solve_decision. Defined.

Module bufio.

Record Reader : Type := mkReader {
  src : list item;          (* what has not been read yet *)
  lastByte : option byte    (* the last byte read, for UnreadByte *)
}.

Definition NewReader (input : list item) : Reader :=
  {| src := input; lastByte := None |}.

(** Read up to and including the first [delim]; stop early at a failed read
    or at the end of the input, with what was read so far and the error. *)
Fixpoint readUntil (delim : byte) (s : list item)
  : list byte * option error * list item :=
  match s with
  | [] => ([], Some io_EOF, [])
  | Fault e :: rest => ([], Some e, rest)
  | Data b :: rest =>
      if Ascii.eqb b delim then ([b], None, rest)
      else let '(d, err, rest') := readUntil delim rest in (b :: d, err, rest')
  end.

Definition ReadBytes (delim : byte) (br : Reader)
  : list byte * option error * Reader :=
  let '(d, err, rest) := readUntil delim (src br) in
  (d, err,
   {| src := rest;
      lastByte := match last d with Some b => Some b | None => lastByte br end |}).

Definition UnreadByte (br : Reader) : option error * Reader :=
  match lastByte br with
  | Some b => (None, {| src := Data b :: src br; lastByte := None |})
  | None => (Some bufio_ErrInvalidUnreadByte, br)
  end.

End bufio.

(** ** Package [dsmr4p1]: the frame reader *)

Definition Telegram : Type := list byte.

(** A line written by the [log] package. *)
Inductive log_line : Type :=
  | log_error (e : error)
  | log_text (s : string).

(** The channel as its consumer sees it, and the log. *)
Record poller : Type := mkPoller {
  br : bufio.Reader;
  sent : list Telegram;      (* ch <- t, oldest first *)
  closed : bool;             (* close(ch) *)
  logged : list log_line
}.

Inductive flow : Type := Break | Continue.

Definition set_reader (p : poller) (r : bufio.Reader) : poller :=
  {| br := r; sent := sent p; closed := closed p; logged := logged p |}.

Definition log_Println (p : poller) (l : log_line) : poller :=
  {| br := br p; sent := sent p; closed := closed p; logged := logged p ++ [l] |}.

Definition send (p : poller) (t : Telegram) : poller :=
  {| br := br p; sent := sent p ++ [t]; closed := closed p; logged := logged p |}.

Definition close (p : poller) : poller :=
  {| br := br p; sent := sent p; closed := true; logged := logged p |}.

(** One pass through the body of the [for] loop of [startPolling]. *)
Definition iteration (p : poller) : flow * poller :=
  let '(_, err, r) := bufio.ReadBytes "/"%char (br p) in
  let p := set_reader p r in
  match err with
  | Some io_EOF => (Break, p)
  | Some e => (Continue, log_Println p (log_error e))
  | None =>
      let '(err, r) := bufio.UnreadByte (br p) in
      let p := set_reader p r in
      match err with
      | Some e => (Continue, log_Println p (log_error e))
      | None =>
          let '(data, err, r) := bufio.ReadBytes "!"%char (br p) in
          let p := set_reader p r in
          match err with
          | Some e => (Continue, log_Println p (log_error e))
          | None =>
              let '(crcBytes, err, r) := bufio.ReadBytes LF (br p) in
              let p := set_reader p r in
              match err with
              | Some e => (Continue, log_Println p (log_error e))
              | None =>
                  if negb (length crcBytes =? 6)%nat then
                    (Continue,
                     log_Println p (log_text "Unexpected number of CRC bytes."))
                  else
                    let dataCRC := string_of_bytes (take 4 crcBytes) in
                    let computedCRC :=
                      Sprintf_04X (crc16.Checksum data ibmTableNoXOR) in
                    if String.eqb dataCRC computedCRC then
                      (Continue, send p data)
                    else
                      (Continue,
                       log_Println p
                         (log_text ("CRC values do not match: " +:+ dataCRC
                                    +:+ " vs " +:+ computedCRC)))
              end
          end
      end
  end.

(** The [for] loop: [fuel] bounds the number of passes. *)
Fixpoint poll_loop (fuel : nat) (p : poller) : option poller :=
  match fuel with
  | O => None
  | S fuel' =>
      match iteration p with
      | (Break, p') => Some p'
      | (Continue, p') => poll_loop fuel' p'
      end
  end.

(** [startPolling(input, ch)] on a fresh channel. Every pass that does not
    leave the loop takes at least one item from the input, so one pass more
    than there are items is enough. *)
Definition on_entry (input : list item) : poller :=
  {| br := bufio.NewReader input; sent := []; closed := false; logged := [] |}.

Definition startPolling (input : list item) : option poller :=
  option_map close (poll_loop (S (length input)) (on_entry input)).

(** [Poll(input)]: what the consumer of the returned channel receives. *)
Definition Poll (input : list item) : option (list Telegram * bool) :=
  option_map (fun p => (sent p, closed p)) (startPolling input).

(** A byte stream without failed reads. *)
Definition stream (b : list byte) : list item := map Data b.

(** ** Package [dsmr4p1]: telegrams *)

(** The index expression [l[i]] on a slice. *)
Definition index_list {A} (l : list A) (i : nat) : outcome A :=
  match l !! i with
  | Some a => Returns a
  | None => Panics index_out_of_range
  end.

(** [strconv.Itoa] on a non-negative [int]. *)
Definition Itoa (i : nat) : string := NilZero.string_of_uint (Nat.to_uint i).

(** [Telegram.Identifier]: the bytes from offset 5 up to the first
    CR LF CR LF. A missing separator gives the index -1, which is out of the
    bounds of the slice expression. *)
Definition Identifier (t : Telegram) : outcome string :=
  match bytes.Index t (bytes_of_string (CRLF +:+ CRLF)) with
  | None => Panics slice_bounds_out_of_range
  | Some i => d ← slice_list t 5 i; Returns (string_of_bytes d)
  end.

(** The body of the [range] loop of [Parse] over the data lines, [i] being
    the loop index and [result] the map built so far. *)
Fixpoint parse_lines (i : nat) (ls : list string) (result : gmap string (list string))
  : outcome (option (gmap string (list string)) * option error) :=
  match ls with
  | [] => Returns (Some result, None)
  | l :: ls' =>
      match strings.Index l "(" with
      | None =>
          Returns (None, Some (errors_New ("Expected '(', not found on line" +:+ Itoa i)))
      | Some idCodeEnd =>
          idCode ← strings.slice l 0 idCodeEnd;
          values ← strings.slice l (idCodeEnd + 1) (String.length l - 1);
          let parts := strings.Split values ")(" in
          parse_lines (S i) ls' (<[idCode := parts]> result)
      end
  end.

(** [Telegram.Parse]. *)
Definition Parse (t : Telegram)
  : outcome (option (gmap string (list string)) * option error) :=
  let lines := strings.Split (string_of_bytes t) CRLF in
  if (length lines <? 2)%nat then
    Returns (None, Some (errors_New "parse error: unexpected number of lines in telegram"))
  else
    line0 ← index_list lines 0;
    c ← strings.at_index line0 0;
    if negb (Ascii.eqb c "/"%char) then
      Returns (None, Some (errors_New "expected '/' missing in first line of telegram"))
    else
      line1 ← index_list lines 1;
      if negb (String.length line1 =? 0)%nat then
        Returns (None, Some (errors_New
          "missing separating new line (CR+LF) between identifier and data in telegram"))
      else
        dataLines ← slice_list lines 2 (length lines - 1);
        parse_lines 0 dataLines ∅.

(** ** Package [dsmr4p1]: values and timestamps *)

Definition summerTimezone : string := "CEST".
Definition winterTimezone : string := "CET".

Definition ErrorParseTimestamp : error :=
  errors_New "error parsing timestamp: missing DST indicator".
Definition ErrorParseValueWithUnit : error :=
  errors_New "error parsing string that should contain both a value and a unit".

Section Timestamp.
(** Package [time]: its types and the two functions used. *)
Variables Time Location : Type.
Variable zeroTime : Time.                                   (* time.Time{} *)
Variable LoadLocation : string -> Location * option error.
Variable ParseInLocation : string -> string -> Location -> Time * option error.

(** [ParseTimestamp]. With an empty argument the index [len(timestamp)-1]
    is -1, out of range as is index 0. *)
Definition ParseTimestamp (timestamp : string) : outcome (Time * option error) :=
  c ← strings.at_index timestamp (String.length timestamp - 1);
  let dst :=
    if Ascii.eqb c "S"%char then Some summerTimezone
    else if Ascii.eqb c "W"%char then Some winterTimezone
    else None in
  match dst with
  | None => Returns (zeroTime, Some ErrorParseTimestamp)
  | Some timezone =>
      let '(loc, _) := LoadLocation "Europe/Amsterdam" in
      front ← strings.slice timestamp 0 (String.length timestamp - 1);
      let timestamp := front +:+ " " +:+ timezone in
      let '(ts, err) := ParseInLocation "060102150405 MST" timestamp loc in
      match err with
      | Some e => Returns (ts, Some e)
      | None => Returns (ts, None)
      end
  end.
End Timestamp.

Section ValueWithUnit.
(** [strconv.ParseFloat(s, 64)]; a [float64] is a binary64 [float]. *)
Variable ParseFloat : string -> float * option error.

(** [ParseValueWithUnit]; the results [value], [unit] and [err] are named,
    so an early return leaves the zero values in those not yet assigned. *)
Definition ParseValueWithUnit (input : string) : outcome (float * string * option error) :=
  let parts := strings.Split input "*" in
  if negb (length parts =? 2)%nat then
    Returns (0%float, "", Some ErrorParseValueWithUnit)
  else
    part0 ← index_list parts 0;
    let '(value, err) := ParseFloat part0 in
    match err with
    | Some e => Returns (value, "", Some e)
    | None =>
        unit_ ← index_list parts 1;
        if strings.HasPrefix unit_ "k" then
          rest ← strings.slice unit_ 1 (String.length unit_);
          Returns (PrimFloat.mul value 1000%float, rest, None)
        else Returns (value, unit_, None)
    end.
End ValueWithUnit.

(** The conversion [strconv.ParseFloat] performs on a plain decimal: an
    optional sign, then digits, with or without a point among them ("230",
    "-12.5", "0001.234", ".5"), when the digits form a number below 2^52 and
    at most 22 of them stand behind the point. This is the exact path of
    [strconv]: the digits as an integer, divided by the power of ten (both
    exact in binary64, one correctly rounded division), negated behind a
    minus sign. [strconv.ParseFloat] accepts more (exponents, longer digit
    strings, hexadecimal notation, "inf", "nan"); such arguments are outside
    this fragment and get a syntax error here. The theorems below hold for
    every conversion function; this one serves as an instance. *)
Fixpoint digits_value (acc : Z) (s : string) : option Z :=
  match s with
  | EmptyString => Some acc
  | String c s' =>
      match Ascii.is_nat c with
      | Some d => digits_value (10 * acc + Z.of_nat d) s'
      | None => None
      end
  end.

(** The table [float64pow10] of [strconv]: 10^k for k up to 22, each exact
    in binary64 (10^18 fits 63 bits; the product with 10^(k-18) is exact). *)
Definition float64pow10 (k : nat) : float :=
  PrimFloat.mul
    (PrimFloat.of_uint63 (Uint63.of_Z (10 ^ Z.of_nat (Nat.min k 18))))
    (PrimFloat.of_uint63 (Uint63.of_Z (10 ^ Z.of_nat (k - 18)))).

Definition ParseFloat_decimal (s : string) : float * option error :=
  let syntax := (0%float, Some (foreign_error "strconv" "invalid syntax")) in
  let '(neg, digits) :=
    match s with
    | String c s' =>
        if Ascii.eqb c "-"%char then (true, s')
        else if Ascii.eqb c "+"%char then (false, s')
        else (false, s)
    | EmptyString => (false, s)
    end in
  let exact (whole frac : string) :=
    match digits_value 0 (whole +:+ frac) with
    | Some mantissa =>
        if (0 <? String.length whole + String.length frac)%nat
           && (mantissa <? 2 ^ 52)%Z && (String.length frac <=? 22)%nat
        then
          let f := PrimFloat.div (PrimFloat.of_uint63 (Uint63.of_Z mantissa))
                     (float64pow10 (String.length frac)) in
          (if neg then PrimFloat.opp f else f, None)
        else syntax
    | None => syntax
    end in
  match strings.Split digits "." with
  | [whole] => exact whole ""%string
  | [whole; frac] => exact whole frac
  | _ => syntax
  end.

(** ** The checksum as the specification describes it *)

Module Spec.
Local Open Scope Z_scope.

(** The polynomial x^16 + x^15 + x^2 + 1, bit [k] being the coefficient of
    x^k. *)
Definition polynomial : Z := 2 ^ 16 + 2 ^ 15 + 2 ^ 2 + 1.

(** Remainder of the division by [polynomial] over GF(2) of a polynomial
    of degree below [16 + n]. *)
Fixpoint poly_rem (n : nat) (p : Z) : Z :=
  match n with
  | O => p
  | S k =>
      poly_rem k
        (if Z.testbit p (16 + Z.of_nat k)
         then Z.lxor p (Z.shiftl polynomial (Z.of_nat k))
         else p)
  end.

(** The [w] low bits of [z] in reverse order. *)
Fixpoint bit_reverse (w : nat) (z : Z) : Z :=
  match w with
  | O => 0
  | S k => (if Z.odd z then 2 ^ Z.of_nat k else 0) + bit_reverse k (z / 2)
  end.

(** Entry [i] of the bit-reversed table: the byte [i], least significant
    bit first, times x^16, reduced, and reversed again. *)
Definition table_entry (i : Z) : Z :=
  bit_reverse 16 (poly_rem 8 (Z.shiftl (bit_reverse 8 i) 16)).

Definition table : list Z := map (fun i => table_entry (Z.of_nat i)) (seq 0 256).

(** The accumulator after the bytes [b], started at [acc]: no complement
    going in, none coming out. *)
Fixpoint checksum_from (acc : Z) (b : list byte) : Z :=
  match b with
  | [] => acc
  | v :: b' =>
      checksum_from
        (Z.lxor (nth (Z.to_nat (Z.lxor (acc mod 256) (byte_to_Z v))) table 0)
                (acc / 256))
        b'
  end.

Definition checksum (b : list byte) : Z := checksum_from 0 b.
End Spec.

(** ** What the frame reader promises about the wire *)

(** [framed s ts]: the telegrams [ts] lie on the wire [s] one behind the
    other, each in a place of its own. Each starts with the start delimiter,
    ends with the end delimiter and is followed at once by its six trailer
    bytes, of which the first four are its checksum in upper-case
    hexadecimal digits and the last is the line feed. *)
Inductive framed : list item -> list Telegram -> Prop :=
  | framed_nil (s : list item) : framed s []
  | framed_cons (before : list item) (t trailer : list byte) (rest : list item)
      (ts : list Telegram) :
      head t = Some "/"%char ->
      last t = Some "!"%char ->
      length trailer = 6 ->
      string_of_bytes (take 4 trailer) = Sprintf_04X (p1crc16 t) ->
      last trailer = Some LF ->
      framed rest ts ->
      framed (before ++ stream t ++ stream trailer ++ rest) (t :: ts).

(** What one pass through the loop took from the wire when it sent [t]. *)
Definition delivered_frame (consumed : list item) (t : Telegram) : Prop :=
  exists (before : list item) (trailer : list byte),
    consumed = before ++ stream t ++ stream trailer
    /\ head t = Some "/"%char
    /\ last t = Some "!"%char
    /\ length trailer = 6
    /\ string_of_bytes (take 4 trailer) = Sprintf_04X (p1crc16 t)
    /\ last trailer = Some LF.

(** A frame body as the meter sends it: the start delimiter, bytes without
    the end delimiter, the end delimiter. *)
Definition body (middle : list byte) : list byte := "/"%char :: middle ++ ["!"%char].

(** The six trailer bytes that belong to a frame body. *)
Definition trailer_of (t : list byte) : list byte :=
  bytes_of_string (Sprintf_04X (p1crc16 t)) ++ [CR; LF].

(** The telegram of the worked example of the specification: the header
    line "/HDR", the empty line, one data line, the end delimiter. *)
Definition example_body : list byte :=
  [CR; LF; CR; LF] ++ bytes_of_string "1-0:1.7.0(0001.234*kW)" ++ [CR; LF]
  ++ bytes_of_string "!".

Definition example_telegram : Telegram := bytes_of_string "/HDR" ++ example_body.

(** A telegram without data lines, and one with a data line that ends in its
    opening parenthesis. *)
Definition empty_telegram : Telegram :=
  bytes_of_string "/HDR" ++ [CR; LF; CR; LF] ++ bytes_of_string "!".

Definition open_paren_telegram : Telegram :=
  bytes_of_string "/HDR" ++ [CR; LF; CR; LF]
  ++ bytes_of_string "1-0:1.7.0(" ++ [CR; LF] ++ bytes_of_string "!".

(** The two tests a frame passes before it is sent: six trailer bytes, the
    first four equal to the checksum digits. *)
Definition accepts (t : list byte) (crcBytes : list byte) : bool :=
  (length crcBytes =? 6)
  && String.eqb (string_of_bytes (take 4 crcBytes)) (Sprintf_04X (p1crc16 t)).

(** Three frames on a wire, the middle one with the trailer "0000": once
    behind noise without a start delimiter, once behind noise that is a
    start delimiter. *)
Definition three_frames : list byte :=
  body (bytes_of_string "a") ++ trailer_of (body (bytes_of_string "a"))
  ++ body (bytes_of_string "b") ++ (bytes_of_string "0000" ++ [CR]) ++ [LF]
  ++ body (bytes_of_string "c") ++ trailer_of (body (bytes_of_string "c")).

Definition quiet_wire : list item := stream (bytes_of_string "xx" ++ three_frames).
Definition noisy_wire : list item := stream (bytes_of_string "/" ++ three_frames).

(** ** Telegrams as text: lines, records, sample programs *)

Definition data_line_ok (l : string) : bool :=
  match strings.Index l "(" with
  | Some k => k + 2 <=? String.length l
  | None => false
  end.

Definition ends_in_open_paren (l : string) : bool :=
  match strings.Index l "(" with
  | Some k => k + 1 =? String.length l
  | None => false
  end.

(** [strings.Join]. *)
Fixpoint Join (pieces : list string) (sep : string) : string :=
  match pieces with
  | [] => ""
  | [p] => p
  | p :: ps => p +:+ sep +:+ Join ps sep
  end.

Definition absent (c : byte) (s : string) : Prop := c ∉ bytes_of_string s.

Definition render_line (r : string * list string) : string :=
  r.1 +:+ "(" +:+ Join r.2 ")(" +:+ ")".

Definition telegram_of_lines (lines : list string) : Telegram :=
  bytes_of_string (Join lines CRLF).

Definition well_formed_record (r : string * list string) : Prop :=
  absent "("%char r.1 /\ absent CR r.1 /\ r.2 <> []
  /\ Forall (fun v => absent ")"%char v /\ absent CR v) r.2.

Global Instance absent_dec (c : byte) (s : string) : Decision (absent c s).
Proof. unfold absent. apply _. Defined.

Global Instance well_formed_record_dec (r : string * list string) :
  Decision (well_formed_record r).
Proof. unfold well_formed_record. apply _. Defined.

(** Records of a telegram as a meter sends them; the code 1-0:1.7.0 occurs
    twice. *)
Definition sample_records : list (string * list string) :=
  [("0-0:1.0.0", ["210315120000W"]);
   ("1-0:1.7.0", ["0001.234*kW"]);
   ("0-1:24.2.1", ["210315120000W"; "00012.345*m3"]);
   ("1-0:1.7.0", ["0002.000*kW"])].

(** Frames on a wire, one behind the other: before each body its noise,
    behind it its trailer. *)
Fixpoint wire_of (frames : list (list byte * list byte)) : list byte :=
  match frames with
  | [] => []
  | (noise, middle) :: frames' =>
      noise ++ body middle ++ trailer_of (body middle) ++ wire_of frames'
  end.

Definition clean_frame (f : list byte * list byte) : Prop :=
  ("/"%char ∉ f.1) /\ ("!"%char ∉ f.2).

Global Instance clean_frame_dec (f : list byte * list byte) : Decision (clean_frame f).
Proof. unfold clean_frame. apply _. Defined.

(** The body of the loop of [p1crc16]. *)
Definition crc_step (crc : Z) (v : byte) : Z :=
  Z.lxor (crc16.entry crc16.IBMTable (Z.lxor (crc16.low_byte crc) (byte_to_Z v)))
         (Z.shiftr crc 8).

(** ** The example program [examples/p1read.go]: the loop over the channel *)

Module p1read.
Section Main.
Variables Time Location : Type.
Variable zeroTime : Time.
Variable LoadLocation : string -> Location * option error.
Variable ParseInLocation : string -> string -> Location -> Time * option error.

(** What [fmt.Println] is called with. *)
Inductive printed : Type :=
  | print_text (s : string)
  | print_error (label : string) (e : error)
  | print_time (label : string) (ts : Time)
  | print_value (label value : string).

(** The index expression [r[key]] on a map that may be [nil]: a missing
    key gives the [nil] slice. *)
Definition map_index (r : option (gmap string (list string))) (key : string)
  : list string :=
  match r with
  | Some m => default [] (m !! key)
  | None => []
  end.

(** One pass through the body of [for t := range ch]: the lines printed,
    and the panic that ended the pass, if one did. The error of [Parse] is
    overwritten without being looked at. *)
Definition handle (t : Telegram) : list printed * option runtime_error :=
  match Parse t with
  | Panics p => ([], Some p)
  | Returns (r, _) =>
      let out := [print_text "Received telegram"] in
      match index_list (map_index r "0-0:1.0.0") 0 with
      | Panics p => (out, Some p)
      | Returns timestamp =>
          match ParseTimestamp Time Location zeroTime LoadLocation ParseInLocation
                  timestamp with
          | Panics p => (out, Some p)
          | Returns (_, Some e) => (out ++ [print_error "Error in time parsing:" e], None)
          | Returns (ts, None) =>
              let out := out ++ [print_time "Timestamp:" ts] in
              match index_list (map_index r "1-0:1.7.0") 0 with
              | Panics p => (out, Some p)
              | Returns delivered =>
                  let out := out ++ [print_value "Electricty power delivered:" delivered] in
                  match index_list (map_index r "1-0:2.7.0") 0 with
                  | Panics p => (out, Some p)
                  | Returns received =>
                      (out ++ [print_value "Electricty power received: " received;
                               print_text ""],
                       None)
                  end
              end
          end
      end
  end.

(** The loop over the telegrams the channel delivers, and the last line of
    [main] when the channel is closed; a panic ends the program. *)
Fixpoint consume (ts : list Telegram) : list printed * option runtime_error :=
  match ts with
  | [] => ([print_text "Done. Exiting."], None)
  | t :: ts' =>
      match handle t with
      | (out, Some p) => (out, Some p)
      | (out, None) => let '(out', end_) := consume ts' in (out ++ out', end_)
      end
  end.
End Main.
End p1read.

(** A telegram as a meter writes it: the header line, the empty line, one
    line for each record, the end delimiter. *)
Definition render_telegram (h : string) (records : list (string * list string))
  : Telegram :=
  telegram_of_lines (String "/" h :: "" :: map render_line records ++ ["!"]).

Definition sendable_record (r : string * list string) : Prop :=
  well_formed_record r /\ absent "!"%char r.1 /\ Forall (absent "!"%char) r.2.

Global Instance sendable_record_dec (r : string * list string) :
  Decision (sendable_record r).
Proof. unfold sendable_record. apply _. Defined.

(** ** The pacing reader [delayedReader] behind [RateLimit] *)

Module delayed.
Section Reader.
(** The size of the buffer of the [bufio.Reader] ([bufio.NewReader] makes
    it 4096 bytes). *)
Variable size : nat.

(** The input is a stream of bytes that ends with [io.EOF]; [rest] is what
    of it has not been read. [Peek(n)] returns the next [n] bytes without
    reading them: fewer at the end of the input, and no more than the
    buffer holds. Its error is dropped by the caller. *)
Definition Peek (n : nat) (rest : list byte) : list byte := take (n `min` size) rest.

(** [bytes.IndexByte], [None] for -1. *)
Fixpoint IndexByte (b : list byte) (c : byte) : option nat :=
  match b with
  | [] => None
  | x :: b' => if Ascii.eqb x c then Some 0 else option_map S (IndexByte b' c)
  end.

(** [rd.Read(q)] with [len(q) = n], called right after [Peek] returned
    [tmp]: the bytes of [tmp] are in the buffer, and [Read] copies from the
    buffer as many bytes as [q] takes. With an empty buffer at the end of
    the input it reports [io.EOF]. *)
Definition Read (tmp : list byte) (n : nat) (rest : list byte)
  : list byte * option error * list byte :=
  match tmp with
  | [] => if (n =? 0)%nat then ([], None, rest) else ([], Some io_EOF, rest)
  | _ :: _ => (take (n `min` length tmp) rest, None, drop (n `min` length tmp) rest)
  end.

(** What one call returns: the bytes copied into [p], the error, what is
    left of the input, and whether the call waited for the ticker. *)
Record result : Type := mkResult {
  chunk : list byte;
  err : option error;
  left : list byte;
  waited : bool
}.

Definition answer (r : list byte * option error * list byte) (w : bool) : result :=
  {| chunk := r.1.1; err := r.1.2; left := r.2; waited := w |}.

(** [delayedReader.Read(p)] with [len(p) = p_len] and the delimiter '/'. *)
Definition delayedRead (p_len : nat) (rest : list byte) : result :=
  let tmp := Peek p_len rest in
  match IndexByte tmp "/"%char with
  | None => answer (Read tmp p_len rest) false
  | Some (S i1) => answer (Read tmp (S i1) rest) false
  | Some O =>
      (* <-dr.ticker.C *)
      match IndexByte (drop 1 tmp) "/"%char with
      | None => answer (Read tmp p_len rest) true
      | Some i2 => answer (Read tmp i2 rest) true
      end
  end.

(** [k] calls in a row, each with a slice of the same length: the chunks
    returned, and what is left. *)
Fixpoint delayedReads (k : nat) (p_len : nat) (rest : list byte)
  : list (list byte) * list byte :=
  match k with
  | O => ([], rest)
  | S k' =>
      let r := delayedRead p_len rest in
      let '(chunks, rest') := delayedReads k' p_len (left r) in
      (chunk r :: chunks, rest')
  end.
End Reader.
End delayed.

(** [within pre ts]: the telegrams [ts] lie in the part [pre] of a wire, one
    behind the other, each in a place of its own that reaches from a start
    delimiter to an end delimiter. *)
Inductive within : list item -> list Telegram -> Prop :=
  | within_nil (s : list item) : within s []
  | within_cons (before : list item) (t : list byte) (rest : list item)
      (ts : list Telegram) :
      head t = Some "/"%char ->
      last t = Some "!"%char ->
      within rest ts ->
      within (before ++ stream t ++ rest) (t :: ts).

(** * Properties *)

(** ** The checksum engine *)

Section Checksum.
Local Open Scope Z_scope.

Lemma IBMTable_makeTable : crc16.IBMTable = crc16.makeTable crc16.IBM.
Proof. vm_compute. reflexivity. Qed.

Lemma ibmTableNoXOR_MakeTableNoXOR :
  ibmTableNoXOR = crc16.MakeTableNoXOR crc16.IBM.
Proof. vm_compute. reflexivity. Qed.

(** The reversed polynomial constant is the polynomial with its sixteen
    low coefficients in reverse order. *)
Lemma IBM_is_reversed_polynomial :
  crc16.IBM = Spec.bit_reverse 16 (Spec.polynomial mod 2 ^ 16).
Proof. vm_compute. reflexivity. Qed.

(** The table of the package is the bit-reversed table of the
    polynomial, entry by entry. *)
Lemma IBMTable_entries : crc16.entries crc16.IBMTable = Spec.table.
Proof. vm_compute. reflexivity. Qed.

Lemma ibmTableNoXOR_entries : crc16.entries ibmTableNoXOR = Spec.table.
Proof. vm_compute. reflexivity. Qed.

Lemma low_byte_mod (crc : Z) : crc16.low_byte crc = crc mod 256.
Proof.
  unfold crc16.low_byte. change 255 with (Z.ones 8).
  rewrite Z.land_ones by lia. reflexivity.
Qed.

Lemma shiftr_8_div (crc : Z) : Z.shiftr crc 8 = crc / 256.
Proof. rewrite Z.shiftr_div_pow2 by lia. reflexivity. Qed.

Lemma updateNoXOR_checksum_from (tab : crc16.Table) (p : list byte) :
  crc16.entries tab = Spec.table ->
  forall crc, crc16.updateNoXOR crc tab p = Spec.checksum_from crc p.
Proof.
  intros Htab. unfold crc16.updateNoXOR.
  induction p as [|v p IH]; intros crc; simpl.
  - reflexivity.
  - rewrite IH. unfold crc16.entry.
    rewrite Htab, low_byte_mod, shiftr_8_div. reflexivity.
Qed.

Lemma p1crc16_updateNoXOR (data : list byte) :
  p1crc16 data = crc16.updateNoXOR 0 crc16.IBMTable data.
Proof. reflexivity. Qed.

(** Both versions of the source compute the same checksum. *)
Lemma Checksum_p1crc16 (data : list byte) :
  crc16.Checksum data ibmTableNoXOR = p1crc16 data.
Proof.
  rewrite p1crc16_updateNoXOR.
  unfold crc16.Checksum, crc16.Update. simpl.
  rewrite !updateNoXOR_checksum_from
    by (apply ibmTableNoXOR_entries || apply IBMTable_entries).
  reflexivity.
Qed.

(** The accumulator stays a [uint16]. *)
Lemma lxor_uint16 (a b : Z) :
  0 <= a < 65536 -> 0 <= b < 65536 -> 0 <= Z.lxor a b < 65536.
Proof.
  intros Ha Hb. split.
  - apply Z.lxor_nonneg. lia.
  - destruct (Z.eq_dec (Z.lxor a b) 0) as [->|Hne]; [lia|].
    change 65536 with (2 ^ 16). apply Z.log2_lt_pow2.
    + pose proof (proj2 (Z.lxor_nonneg a b)) as H. lia.
    + pose proof (Z.log2_lxor a b ltac:(lia) ltac:(lia)) as Hl.
      assert (Z.log2 a < 16).
      { destruct (Z.eq_dec a 0) as [->|]; [simpl; lia|].
        apply Z.log2_lt_pow2; lia. }
      assert (Z.log2 b < 16).
      { destruct (Z.eq_dec b 0) as [->|]; [simpl; lia|].
        apply Z.log2_lt_pow2; lia. }
      lia.
Qed.

Lemma table_uint16 (i : nat) : 0 <= nth i Spec.table 0 < 65536.
Proof.
  destruct (le_lt_dec 256 i) as [Hge|Hlt].
  - rewrite nth_overflow; [lia|]. exact Hge.
  - assert (H : Forall (fun e => 0 <= e < 65536) Spec.table).
    { apply (bool_decide_unpack _). vm_compute. reflexivity. }
    rewrite List.Forall_forall in H. apply H. apply nth_In. exact Hlt.
Qed.

Lemma checksum_from_uint16 (b : list byte) :
  forall acc, 0 <= acc < 65536 -> 0 <= Spec.checksum_from acc b < 65536.
Proof.
  induction b as [|v b IH]; intros acc Hacc; simpl; [exact Hacc|].
  apply IH. apply lxor_uint16.
  - apply table_uint16.
  - split; [apply Z.div_pos; lia|].
    apply Z.div_lt_upper_bound; lia.
Qed.
End Checksum.

(** C2: for every byte sequence the checksum of the source ([p1crc16], and
    [crc16.Checksum] with [ibmTableNoXOR]) is the fold that starts a 16-bit
    accumulator at 0 and replaces it, for each byte [v], by
    [table[low_byte(acc) XOR v] XOR (acc >> 8)], [table] being the
    bit-reversed table of the polynomial x^16 + x^15 + x^2 + 1, with no
    complement before or after; the result is a function of the bytes alone
    and stays within sixteen bits. *)
Theorem checksum_is_table_fold (b : list byte) :
  p1crc16 b = Spec.checksum b
  /\ crc16.Checksum b ibmTableNoXOR = Spec.checksum b
  /\ (0 <= Spec.checksum b < 65536)%Z.
Proof.
  split; [|split].
  - rewrite p1crc16_updateNoXOR.
    apply updateNoXOR_checksum_from, IBMTable_entries.
  - rewrite Checksum_p1crc16, p1crc16_updateNoXOR.
    apply updateNoXOR_checksum_from, IBMTable_entries.
  - apply checksum_from_uint16. lia.
Qed.

(** A known value: the check string of the CRC catalogue. *)
Example p1crc16_check_value : p1crc16 (bytes_of_string "123456789") = 0xBB3D%Z.
Proof. vm_compute. reflexivity. Qed.

(** ** The buffered reader *)

Section Reader.
Implicit Types (s rest : list item) (d : list byte) (delim : byte).

Lemma stream_app (a b : list byte) : stream (a ++ b) = stream a ++ stream b.
Proof. apply map_app. Qed.

Lemma stream_length (a : list byte) : length (stream a) = length a.
Proof. apply length_map. Qed.

(** What a read returns, read backwards from its result. *)
Lemma readUntil_inv delim s d err rest :
  bufio.readUntil delim s = (d, err, rest) ->
  match err with
  | None => exists front, d = front ++ [delim] /\ (delim ∉ front) /\ s = stream d ++ rest
  | Some e =>
      (delim ∉ d)
      /\ (s = stream d ++ Fault e :: rest \/ (e = io_EOF /\ s = stream d /\ rest = []))
  end.
Proof.
  revert d err rest. induction s as [|[b|e] s IH]; intros d err rest H; simpl in H.
  - inversion H; subst. split; [apply not_elem_of_nil|]. right. auto.
  - destruct (Ascii.eqb_spec b delim) as [->|Hne].
    + inversion H; subst. exists []. split; [reflexivity|].
      split; [apply not_elem_of_nil|reflexivity].
    + destruct (bufio.readUntil delim s) as [[d' err'] rest'] eqn:E.
      inversion H; subst. specialize (IH _ _ _ eq_refl).
      destruct err as [e|].
      * destruct IH as [Hnot Hs]. split.
        { apply not_elem_of_cons. split; [congruence|exact Hnot]. }
        destruct Hs as [->|(-> & -> & ->)]; [left|right]; auto.
      * destruct IH as (front & -> & Hnot & ->).
        exists (b :: front). split; [reflexivity|]. split; [|reflexivity].
        apply not_elem_of_cons. split; [congruence|exact Hnot].
  - inversion H; subst. split; [apply not_elem_of_nil|]. left. reflexivity.
Qed.

(** What a read returns on an input of a known shape. *)
Lemma readUntil_found delim (front : list byte) rest :
  delim ∉ front ->
  bufio.readUntil delim (stream front ++ Data delim :: rest)
  = (front ++ [delim], None, rest).
Proof.
  induction front as [|b front IH]; intros Hnot; simpl.
  - rewrite Ascii.eqb_refl. reflexivity.
  - apply not_elem_of_cons in Hnot as [Hne Hnot].
    destruct (Ascii.eqb_spec b delim) as [->|_]; [congruence|].
    rewrite IH by exact Hnot. reflexivity.
Qed.

Lemma readUntil_eof delim (front : list byte) :
  delim ∉ front ->
  bufio.readUntil delim (stream front) = (front, Some io_EOF, []).
Proof.
  induction front as [|b front IH]; intros Hnot; simpl.
  - reflexivity.
  - apply not_elem_of_cons in Hnot as [Hne Hnot].
    destruct (Ascii.eqb_spec b delim) as [->|_]; [congruence|].
    rewrite IH by exact Hnot. reflexivity.
Qed.

Lemma ReadBytes_inv delim (r : bufio.Reader) d err (r' : bufio.Reader) :
  bufio.ReadBytes delim r = (d, err, r') ->
  bufio.readUntil delim (bufio.src r) = (d, err, bufio.src r')
  /\ bufio.lastByte r'
     = match last d with Some b => Some b | None => bufio.lastByte r end.
Proof.
  unfold bufio.ReadBytes.
  destruct (bufio.readUntil delim (bufio.src r)) as [[d' err'] rest'].
  intros H. inversion H; subst. simpl. auto.
Qed.

(** After a read that returned bytes, the last of them can be unread. *)
Lemma UnreadByte_after_read (r : bufio.Reader) (front : list byte) (b : byte) :
  bufio.lastByte r = last (front ++ [b]) ->
  bufio.UnreadByte r
  = (None, {| bufio.src := Data b :: bufio.src r; bufio.lastByte := None |}).
Proof.
  rewrite last_snoc. unfold bufio.UnreadByte. intros ->. reflexivity.
Qed.
End Reader.

(** ** The frame reader *)

Lemma readUntil_split delim (s : list item) (d : list byte) err rest :
  bufio.readUntil delim s = (d, err, rest) ->
  exists tail, s = stream d ++ tail ++ rest.
Proof.
  intros H. apply readUntil_inv in H. destruct err as [e|].
  - destruct H as [_ [->|(_ & -> & ->)]].
    + exists [Fault e]. reflexivity.
    + exists []. rewrite !app_nil_r. reflexivity.
  - destruct H as (_ & _ & _ & ->). exists []. reflexivity.
Qed.

Lemma stream_snoc_nonempty (front : list byte) (b : byte) (l : list item) :
  stream (front ++ [b]) ++ l <> [].
Proof. rewrite stream_app. destruct (stream front); discriminate. Qed.

Lemma iteration_inv (p : poller) (fl : flow) (p' : poller) :
  iteration p = (fl, p') ->
  closed p' = closed p
  /\ exists consumed,
       bufio.src (br p) = consumed ++ bufio.src (br p')
       /\ (fl = Continue -> consumed <> [])
       /\ (sent p' = sent p
           \/ exists t, sent p' = sent p ++ [t] /\ delivered_frame consumed t).
Proof.
  unfold iteration.
  destruct (bufio.ReadBytes "/" (br p)) as [[d0 err0] r0] eqn:E0.
  apply ReadBytes_inv in E0 as [E0 L0].
  destruct err0 as [e0|].
  { apply readUntil_inv in E0 as [_ Hs].
    assert (Hc : exists consumed, bufio.src (br p) = consumed ++ bufio.src r0
                 /\ (e0 <> io_EOF -> consumed <> [])).
    { destruct Hs as [->|(-> & -> & ->)].
      - exists (stream d0 ++ [Fault e0]). rewrite <- app_assoc. split; [reflexivity|].
        intros _. destruct (stream d0); discriminate.
      - exists (stream d0). rewrite app_nil_r. split; [reflexivity|congruence]. }
    destruct Hc as (consumed & Hsrc & Hne).
    destruct e0; intros H; inversion H; subst; simpl;
      (split; [reflexivity|]); exists consumed;
      (split; [exact Hsrc|]); (split; [|left; reflexivity]);
      try discriminate; intros _; apply Hne; discriminate. }
  apply readUntil_inv in E0 as (front0 & -> & _ & Hs0). simpl.
  rewrite (UnreadByte_after_read r0 front0 "/"%char)
    by (rewrite L0, last_snoc; reflexivity).
  simpl.
  destruct (bufio.ReadBytes "!" _) as [[data err1] r1] eqn:E1.
  apply ReadBytes_inv in E1 as [E1 _]. simpl in E1.
  destruct (bufio.readUntil "!" (bufio.src r0)) as [[d1 err1'] rest1] eqn:E1'.
  inversion E1; subst data err1' rest1. clear E1.
  pose proof (readUntil_split _ _ _ _ _ E1') as [tail1 Hs1].
  rewrite Hs1 in Hs0.
  destruct err1 as [e1|].
  { intros H; inversion H; subst; simpl. split; [reflexivity|].
    exists (stream (front0 ++ ["/"%char]) ++ stream d1 ++ tail1).
    split; [rewrite Hs0, <- !app_assoc; reflexivity|].
    split; [intros _; apply stream_snoc_nonempty|left; reflexivity]. }
  apply readUntil_inv in E1' as (front1 & -> & _ & Hs1').
  assert (tail1 = []) as ->.
  { rewrite Hs1' in Hs1. apply app_inv_head in Hs1.
    destruct tail1; [reflexivity|].
    apply (f_equal length) in Hs1. simpl in Hs1. rewrite length_app in Hs1. lia. }
  simpl in Hs0.
  destruct (bufio.ReadBytes LF r1) as [[crcBytes err2] r2] eqn:E2.
  apply ReadBytes_inv in E2 as [E2 _].
  pose proof (readUntil_split _ _ _ _ _ E2) as [tail2 Hs2].
  rewrite Hs2 in Hs0.
  destruct err2 as [e2|].
  { intros H; inversion H; subst; simpl. split; [reflexivity|].
    exists (stream (front0 ++ ["/"%char]) ++ stream (front1 ++ ["!"%char])
            ++ stream crcBytes ++ tail2).
    split; [rewrite Hs0, <- !app_assoc; reflexivity|].
    split; [intros _; apply stream_snoc_nonempty|left; reflexivity]. }
  apply readUntil_inv in E2 as (front2 & -> & _ & Hs2').
  assert (tail2 = []) as ->.
  { rewrite Hs2' in Hs2. apply app_inv_head in Hs2.
    destruct tail2; [reflexivity|].
    apply (f_equal length) in Hs2. simpl in Hs2. rewrite length_app in Hs2. lia. }
  simpl in Hs0. clear Hs1 Hs1' Hs2 Hs2' L0.
  set (consumed := stream (front0 ++ ["/"%char]) ++ stream (front1 ++ ["!"%char])
                   ++ stream (front2 ++ [LF])).
  assert (Hsrc : bufio.src (br p) = consumed ++ bufio.src r2).
  { unfold consumed. rewrite Hs0, <- !app_assoc. reflexivity. }
  assert (Hne : consumed <> []) by apply stream_snoc_nonempty.
  destruct (Nat.eqb_spec (length (front2 ++ [LF])) 6) as [Hlen|Hlen]; simpl.
  2:{ intros H; inversion H; subst; simpl. split; [reflexivity|].
      exists consumed. auto. }
  destruct (String.eqb_spec (string_of_bytes (take 4 (front2 ++ [LF])))
              (Sprintf_04X (crc16.Checksum ("/"%char :: front1 ++ ["!"%char])
                              ibmTableNoXOR))) as [Hcrc|Hcrc].
  2:{ intros H; inversion H; subst; simpl. split; [reflexivity|].
      exists consumed. auto. }
  intros H; inversion H; subst; simpl. split; [reflexivity|].
  exists consumed. split; [exact Hsrc|]. split; [auto|]. right.
  exists ("/"%char :: front1 ++ ["!"%char]). split; [reflexivity|].
  exists (stream front0), (front2 ++ [LF]).
  rewrite Checksum_p1crc16 in Hcrc.
  repeat split; try assumption.
  - unfold consumed, stream. simpl. rewrite !map_app, <- !app_assoc. reflexivity.
  - change ("/"%char :: front1 ++ ["!"%char]) with (("/"%char :: front1) ++ ["!"%char]).
    apply last_snoc.
  - apply last_snoc.
Qed.

Lemma framed_prepend (c s : list item) (ts : list Telegram) :
  framed s ts -> framed (c ++ s) ts.
Proof.
  intros H. destruct H as [s|before t trailer rest ts H1 H2 H3 H4 H5 H6].
  - constructor.
  - rewrite app_assoc. constructor; assumption.
Qed.

Lemma framed_delivered (consumed rest : list item) (t : Telegram) (ts : list Telegram) :
  delivered_frame consumed t -> framed rest ts -> framed (consumed ++ rest) (t :: ts).
Proof.
  intros (before & trailer & -> & H1 & H2 & H3 & H4 & H5) H.
  rewrite <- !app_assoc. constructor; assumption.
Qed.

Lemma poll_loop_inv (fuel : nat) :
  forall p q, poll_loop fuel p = Some q ->
    closed q = closed p
    /\ exists new, sent q = sent p ++ new /\ framed (bufio.src (br p)) new.
Proof.
  induction fuel as [|fuel IH]; intros p q H; simpl in H; [discriminate|].
  destruct (iteration p) as [fl p'] eqn:E.
  apply iteration_inv in E as (Hcl & consumed & Hsrc & _ & Hsent).
  assert (Hq : closed q = closed p'
               /\ exists new, sent q = sent p' ++ new /\ framed (bufio.src (br p')) new).
  { destruct fl.
    - inversion H; subst. split; [reflexivity|]. exists [].
      rewrite app_nil_r. split; [reflexivity|constructor].
    - apply IH. exact H. }
  destruct Hq as (Hcl' & new & Hnew & Hfr). split; [congruence|].
  rewrite Hsrc. destruct Hsent as [Hsame|(t & Ht & Hdel)].
  - exists new. split; [congruence|]. apply framed_prepend. exact Hfr.
  - exists (t :: new). split.
    + rewrite Hnew, Ht, <- app_assoc. reflexivity.
    + apply framed_delivered; assumption.
Qed.

Lemma poll_loop_terminates (fuel : nat) :
  forall p, length (bufio.src (br p)) < fuel -> exists q, poll_loop fuel p = Some q.
Proof.
  induction fuel as [|fuel IH]; intros p Hlen; [lia|]. simpl.
  destruct (iteration p) as [fl p'] eqn:E.
  destruct fl; [eauto|].
  apply iteration_inv in E as (_ & consumed & Hsrc & Hne & _).
  apply IH. rewrite Hsrc, length_app in Hlen.
  specialize (Hne eq_refl). destruct consumed; [congruence|]. simpl in Hlen. lia.
Qed.

Lemma poll_loop_more_fuel (fuel : nat) :
  forall fuel' p q, poll_loop fuel p = Some q -> fuel <= fuel' ->
    poll_loop fuel' p = Some q.
Proof.
  induction fuel as [|fuel IH]; intros fuel' p q H Hle; [discriminate|].
  destruct fuel' as [|fuel']; [lia|]. simpl in *.
  destruct (iteration p) as [[] p']; [exact H|].
  apply IH; [exact H|lia].
Qed.

Lemma startPolling_from_loop (input : list item) (fuel : nat) (q : poller) :
  poll_loop fuel (on_entry input) = Some q ->
  startPolling input = Some (close q).
Proof.
  intros H. unfold startPolling.
  destruct (poll_loop_terminates (S (length input)) (on_entry input))
    as [q' Hq']; [simpl; lia|].
  rewrite Hq'. simpl. f_equal. f_equal.
  destruct (Nat.le_ge_cases fuel (S (length input))) as [Hle|Hle].
  - apply (poll_loop_more_fuel _ _ _ _ H) in Hle. congruence.
  - apply (poll_loop_more_fuel _ _ _ _ Hq') in Hle. congruence.
Qed.

(** C1: whatever the input, the reader stops and closes the channel, and
    the telegrams it has sent lie on the wire one behind the other, each in
    a place of its own (so none is sent twice); each starts with '/', ends
    with '!' and is followed at once by six trailer bytes whose first four
    are its recomputed checksum in four upper-case hexadecimal digits. *)
Theorem delivered_telegrams_are_framed (input : list item) :
  exists q, startPolling input = Some q
            /\ closed q = true
            /\ framed input (sent q).
Proof.
  destruct (poll_loop_terminates (S (length input)) (on_entry input))
    as [q Hq]; [simpl; lia|].
  exists (close q). split; [unfold startPolling; rewrite Hq; reflexivity|].
  split; [reflexivity|].
  apply poll_loop_inv in Hq as (_ & new & Hsent & Hfr). simpl in *.
  rewrite Hsent. exact Hfr.
Qed.

Lemma ReadBytes_found delim (r : bufio.Reader) (front : list byte) (rest : list item) :
  delim ∉ front ->
  bufio.src r = stream front ++ Data delim :: rest ->
  bufio.ReadBytes delim r
  = (front ++ [delim], None, {| bufio.src := rest; bufio.lastByte := Some delim |}).
Proof.
  intros Hnot Hsrc. unfold bufio.ReadBytes.
  rewrite Hsrc, readUntil_found by exact Hnot.
  rewrite last_snoc. reflexivity.
Qed.

Lemma iteration_frame (p : poller) (noise middle x : list byte) (rest : list item) :
  "/"%char ∉ noise -> "!"%char ∉ middle -> LF ∉ x ->
  bufio.src (br p)
  = stream noise ++ stream (body middle) ++ stream (x ++ [LF]) ++ rest ->
  exists p',
    iteration p = (Continue, p')
    /\ bufio.src (br p') = rest
    /\ closed p' = closed p
    /\ if accepts (body middle) (x ++ [LF])
       then sent p' = sent p ++ [body middle] /\ logged p' = logged p
       else sent p' = sent p /\ exists l, logged p' = logged p ++ [l].
Proof.
  intros Hnoise Hmid Hx Hsrc. unfold iteration.
  rewrite (ReadBytes_found "/"%char (br p) noise
             (stream (middle ++ ["!"%char]) ++ stream (x ++ [LF]) ++ rest))
    by (assumption || (rewrite Hsrc; reflexivity)).
  cbn [set_reader br bufio.UnreadByte bufio.lastByte bufio.src].
  rewrite (ReadBytes_found "!"%char _ ("/"%char :: middle) (stream (x ++ [LF]) ++ rest)).
  2:{ apply not_elem_of_cons. split; [discriminate|exact Hmid]. }
  2:{ cbn [bufio.src]. rewrite stream_app, <- app_assoc. reflexivity. }
  cbn [set_reader br].
  rewrite (ReadBytes_found LF _ x rest).
  2:{ exact Hx. }
  2:{ cbn [bufio.src]. rewrite stream_app, <- app_assoc. reflexivity. }
  cbn [set_reader br]. rewrite Checksum_p1crc16.
  change (("/"%char :: middle) ++ ["!"%char]) with (body middle).
  unfold accepts.
  destruct (length (x ++ [LF]) =? 6); cbn [negb andb].
  - destruct (String.eqb _ _); eexists; (split; [reflexivity|]); cbn; eauto.
  - eexists; (split; [reflexivity|]); cbn; eauto.
Qed.

Lemma iteration_eof (p : poller) (noise : list byte) :
  "/"%char ∉ noise ->
  bufio.src (br p) = stream noise ->
  exists p',
    iteration p = (Break, p')
    /\ sent p' = sent p /\ closed p' = closed p /\ logged p' = logged p.
Proof.
  intros Hnoise Hsrc. unfold iteration, bufio.ReadBytes.
  rewrite Hsrc, readUntil_eof by exact Hnoise.
  eexists. split; [reflexivity|]. cbn. auto.
Qed.

Lemma hex_digit_not_LF (d : Z) : hex_digit (d mod 16) <> LF.
Proof.
  pose proof (Z.mod_pos_bound d 16 ltac:(lia)) as H.
  set (k := (d mod 16)%Z) in *.
  assert (Hk : In k [0; 1; 2; 3; 4; 5; 6; 7; 8; 9; 10; 11; 12; 13; 14; 15]%Z)
    by (simpl; lia).
  simpl in Hk.
  repeat (destruct Hk as [<-|Hk]; [vm_compute; discriminate|]).
  destruct Hk.
Qed.

Lemma trailer_of_shape (t : list byte) :
  exists x, trailer_of t = x ++ [LF] /\ (LF ∉ x) /\ accepts t (x ++ [LF]) = true.
Proof.
  unfold trailer_of, Sprintf_04X, bytes_of_string, string_of_bytes.
  rewrite list_ascii_of_string_of_list_ascii.
  set (v := p1crc16 t).
  exists [hex_digit (Z.shiftr v 12 mod 16); hex_digit (Z.shiftr v 8 mod 16);
          hex_digit (Z.shiftr v 4 mod 16); hex_digit (v mod 16); CR].
  split; [reflexivity|]. split.
  - rewrite !not_elem_of_cons.
    repeat split; try (apply not_eq_sym, hex_digit_not_LF); try discriminate.
    apply not_elem_of_nil.
  - unfold accepts. cbn [app length Nat.eqb take andb].
    fold v. unfold Sprintf_04X, string_of_bytes. apply String.eqb_refl.
Qed.

Lemma accepts_mismatch (t x : list byte) :
  string_of_bytes (take 4 x) <> Sprintf_04X (p1crc16 t) ->
  accepts t (x ++ [LF]) = false.
Proof.
  intros Hne. unfold accepts.
  destruct (Nat.eqb_spec (length (x ++ [LF])) 6) as [Hlen|_]; [|reflexivity].
  rewrite length_app in Hlen. simpl in Hlen.
  rewrite take_app_le by lia. simpl.
  apply String.eqb_neq. exact Hne.
Qed.

(** C3 (amended): noise without a start delimiter, a well-formed frame, a
    frame whose trailer line does not start with its checksum digits, a
    well-formed frame: exactly the first and the third frame are sent, in
    that order, the channel is closed, and one line is logged. *)
Theorem two_of_three_frames_delivered (noise m1 m2 x2 m3 : list byte) :
  "/"%char ∉ noise ->
  "!"%char ∉ m1 -> "!"%char ∉ m2 -> "!"%char ∉ m3 ->
  LF ∉ x2 ->
  string_of_bytes (take 4 x2) <> Sprintf_04X (p1crc16 (body m2)) ->
  exists q,
    startPolling
      (stream (noise
               ++ body m1 ++ trailer_of (body m1)
               ++ body m2 ++ (x2 ++ [LF])
               ++ body m3 ++ trailer_of (body m3)))
    = Some q
    /\ sent q = [body m1; body m3]
    /\ closed q = true
    /\ exists l, logged q = [l].
Proof.
  intros Hnoise H1 H2 H3 Hx2 Hbad.
  destruct (trailer_of_shape (body m1)) as (x1 & -> & Hx1 & Hok1).
  destruct (trailer_of_shape (body m3)) as (x3 & -> & Hx3 & Hok3).
  set (input := stream _).
  destruct (iteration_frame (on_entry input) noise m1 x1
              (stream (body m2 ++ (x2 ++ [LF]) ++ body m3 ++ x3 ++ [LF])))
    as (p1 & E1 & S1 & C1 & D1); try assumption.
  { unfold input. cbn [on_entry br bufio.NewReader bufio.src].
    rewrite !stream_app, <- !app_assoc. reflexivity. }
  rewrite Hok1 in D1. destruct D1 as [D1 L1].
  destruct (iteration_frame p1 [] m2 x2 (stream (body m3 ++ x3 ++ [LF])))
    as (p2 & E2 & S2 & C2 & D2); try assumption.
  { apply not_elem_of_nil. }
  { rewrite S1, !stream_app, <- !app_assoc. reflexivity. }
  rewrite (accepts_mismatch _ _ Hbad) in D2. destruct D2 as [D2 [l L2]].
  destruct (iteration_frame p2 [] m3 x3 []) as (p3 & E3 & S3 & C3 & D3);
    try assumption.
  { apply not_elem_of_nil. }
  { rewrite S2, !stream_app, <- !app_assoc, !app_nil_r. reflexivity. }
  rewrite Hok3 in D3. destruct D3 as [D3 L3].
  destruct (iteration_eof p3 []) as (p4 & E4 & D4 & C4 & L4).
  { apply not_elem_of_nil. }
  { rewrite S3. reflexivity. }
  exists (close p4). split.
  - apply (startPolling_from_loop input 4). simpl. rewrite E1, E2, E3, E4. reflexivity.
  - cbn [close sent closed logged]. split; [|split; [reflexivity|]].
    + rewrite D4, D3, D2, D1. reflexivity.
    + exists l. rewrite L4, L3, L2, L1. reflexivity.
Qed.

Lemma stream_elem (b : byte) (l : list byte) : Data b ∈ stream l <-> b ∈ l.
Proof.
  unfold stream. rewrite list_elem_of_fmap. split.
  - intros (y & Hy & Hin). inversion Hy. subst. exact Hin.
  - intros Hin. exists b. auto.
Qed.

Lemma framed_needs_end_delimiter (s : list item) (ts : list Telegram) :
  Data "!"%char ∉ s -> framed s ts -> ts = [].
Proof.
  intros Hnot H. destruct H as [s|before t trailer rest ts _ Hlast _ _ _ _].
  - reflexivity.
  - exfalso. apply Hnot. apply last_Some in Hlast as [t' ->].
    rewrite !elem_of_app, stream_elem, elem_of_app, list_elem_of_singleton.
    auto.
Qed.

Lemma poll_loop_without_end_delimiter (fuel : nat) (p q : poller) :
  Data "!"%char ∉ bufio.src (br p) ->
  poll_loop fuel p = Some q ->
  sent q = sent p /\ closed q = closed p.
Proof.
  intros Hnot H. apply poll_loop_inv in H as (Hcl & new & Hsent & Hfr).
  apply framed_needs_end_delimiter in Hfr; [|exact Hnot]. subst new.
  rewrite app_nil_r in Hsent. auto.
Qed.

Lemma two_of_three_frames_delivered_witness :
  exists q, startPolling quiet_wire = Some q
            /\ sent q = [body (bytes_of_string "a"); body (bytes_of_string "c")]
            /\ closed q = true
            /\ exists l, logged q = [l].
Proof.
  apply (two_of_three_frames_delivered (bytes_of_string "xx")
           (bytes_of_string "a") (bytes_of_string "b")
           (bytes_of_string "0000" ++ [CR]) (bytes_of_string "c"));
    apply (bool_decide_unpack _); vm_compute; reflexivity.
Defined.

(** With a start delimiter in the noise the first frame is read from that
    delimiter on, fails its checksum and is lost. *)
Lemma start_delimiter_in_noise_loses_first_frame :
  Poll noisy_wire = Some ([body (bytes_of_string "c")], true)
  /\ Poll noisy_wire
     <> Some ([body (bytes_of_string "a"); body (bytes_of_string "c")], true).
Proof. split; [vm_compute; reflexivity|vm_compute; discriminate]. Qed.

(** * Further properties of the code *)

(** ** Strings: cutting and joining *)

Lemma string_of_bytes_app (a b : list byte) :
  string_of_bytes (a ++ b) = string_of_bytes a +:+ string_of_bytes b.
Proof. induction a as [|c a IH]; simpl; [reflexivity|]. rewrite IH. reflexivity. Qed.

Lemma string_of_bytes_of_string (s : string) : string_of_bytes (bytes_of_string s) = s.
Proof. apply string_of_list_ascii_of_string. Qed.

Lemma prefix_append (s t : string) : String.prefix s (s +:+ t) = true.
Proof.
  induction s as [|c s IH]; simpl; [destruct t; reflexivity|].
  destruct (ascii_dec c c); [exact IH|congruence].
Qed.

Lemma Index_prefix (s sub : string) :
  String.prefix sub s = true -> strings.Index s sub = Some 0.
Proof. intros H. destruct s; cbn [strings.Index]; rewrite H; reflexivity. Qed.

(** The first occurrence of a separator whose first byte does not occur
    before it. *)
Lemma Index_first_byte (front : list byte) (c : byte) (sep' rest : string) :
  c ∉ front ->
  strings.Index (string_of_bytes front +:+ String c sep' +:+ rest) (String c sep')
  = Some (length front).
Proof.
  induction front as [|b front IH]; intros Hnot.
  - apply Index_prefix. apply (prefix_append (String c sep') rest).
  - apply not_elem_of_cons in Hnot as [Hne Hnot].
    change (string_of_bytes (b :: front) +:+ String c sep' +:+ rest)
      with (String b (string_of_bytes front +:+ String c sep' +:+ rest)).
    cbn [strings.Index String.prefix].
    destruct (ascii_dec c b) as [->|_]; [congruence|].
    rewrite IH by exact Hnot. reflexivity.
Qed.

Lemma slice_list_in_bounds {A} (l : list A) (lo hi : nat) :
  lo <= hi -> hi <= length l ->
  slice_list l lo hi = Returns (take (hi - lo) (drop lo l)).
Proof.
  intros H1 H2. unfold slice_list.
  rewrite (proj2 (Nat.leb_le lo hi) H1), (proj2 (Nat.leb_le hi (length l)) H2).
  reflexivity.
Qed.

(** X9: when exactly five bytes stand before it and no carriage return
    occurs up to the first CR LF CR LF, [Identifier] returns what lies
    between the fifth byte and that separator. *)
Theorem Identifier_skips_five_bytes (prefix ident rest : list byte) :
  length prefix = 5 ->
  CR ∉ prefix ++ ident ->
  Identifier (prefix ++ ident ++ [CR; LF; CR; LF] ++ rest)
  = Returns (string_of_bytes ident).
Proof.
  intros Hlen Hnot. unfold Identifier, bytes.Index.
  rewrite string_of_bytes_of_string, app_assoc.
  rewrite (string_of_bytes_app (prefix ++ ident)).
  change (string_of_bytes ([CR; LF; CR; LF] ++ rest))
    with (String CR (String LF CRLF) +:+ string_of_bytes rest).
  change (CRLF +:+ CRLF) with (String CR (String LF CRLF)).
  rewrite Index_first_byte by exact Hnot.
  rewrite slice_list_in_bounds by (rewrite !length_app; lia).
  rewrite length_app, Hlen.
  assert (Hdrop : drop 5 ((prefix ++ ident) ++ [CR; LF; CR; LF] ++ rest)
                  = ident ++ [CR; LF; CR; LF] ++ rest).
  { rewrite <- Hlen, <- app_assoc. apply drop_app_length. }
  rewrite Hdrop.
  replace (5 + length ident - 5) with (length ident) by lia.
  rewrite take_app_length. reflexivity.
Qed.

(** ** [Telegram.Parse] and [Telegram.Identifier] *)

Lemma prefix_length (sub s : string) :
  String.prefix sub s = true -> String.length sub <= String.length s.
Proof.
  revert s. induction sub as [|c sub IH]; intros s H; simpl; [lia|].
  destruct s as [|c' s]; simpl in H; [discriminate|].
  destruct (ascii_dec c c'); [|discriminate].
  apply IH in H. simpl. lia.
Qed.

Lemma Index_bound (s sub : string) (k : nat) :
  strings.Index s sub = Some k -> k + String.length sub <= String.length s.
Proof.
  revert k. induction s as [|c s IH]; intros k H; cbn [strings.Index] in H.
  - destruct (String.prefix sub "") eqn:E; [|discriminate].
    inversion H; subst. apply prefix_length in E. simpl in *. lia.
  - destruct (String.prefix sub (String c s)) eqn:E.
    + inversion H; subst. apply prefix_length in E. simpl in *. lia.
    + destruct (strings.Index s sub) as [k'|]; [|discriminate].
      inversion H; subst. specialize (IH _ eq_refl). simpl. lia.
Qed.

Lemma slice_in_bounds (s : string) (lo hi : nat) :
  lo <= hi -> hi <= String.length s ->
  strings.slice s lo hi = Returns (strings.take (hi - lo) (strings.drop lo s)).
Proof.
  intros H1 H2. unfold strings.slice.
  rewrite (proj2 (Nat.leb_le lo hi) H1), (proj2 (Nat.leb_le hi _) H2).
  reflexivity.
Qed.

Lemma slice_out_of_bounds (s : string) (lo hi : nat) :
  hi < lo -> strings.slice s lo hi = Panics slice_bounds_out_of_range.
Proof.
  intros H. unfold strings.slice.
  rewrite (proj2 (Nat.leb_gt lo hi) H). reflexivity.
Qed.

(** One good data line: the loop goes on with the map extended. *)
Lemma parse_lines_step (i : nat) (l : string) (ls : list string)
    (result : gmap string (list string)) :
  data_line_ok l = true ->
  exists idCode parts,
    parse_lines i (l :: ls) result = parse_lines (S i) ls (<[idCode := parts]> result).
Proof.
  unfold data_line_ok. intros H. cbn [parse_lines].
  destruct (strings.Index l "(") as [k|] eqn:E; [|discriminate].
  apply Nat.leb_le in H.
  rewrite (slice_in_bounds l 0 k) by lia. cbn [mbind outcome_bind].
  rewrite (slice_in_bounds l (k + 1)) by lia. cbn [mbind outcome_bind].
  eauto.
Qed.

Lemma parse_lines_open_paren (i : nat) (l : string) (ls : list string)
    (result : gmap string (list string)) :
  ends_in_open_paren l = true ->
  parse_lines i (l :: ls) result = Panics slice_bounds_out_of_range.
Proof.
  unfold ends_in_open_paren. intros H. cbn [parse_lines].
  destruct (strings.Index l "(") as [k|] eqn:E; [|discriminate].
  apply Nat.eqb_eq in H.
  rewrite (slice_in_bounds l 0 k) by lia. cbn [mbind outcome_bind].
  rewrite slice_out_of_bounds by lia. reflexivity.
Qed.

Lemma parse_lines_panics (before : list string) (l : string) (after : list string) :
  Forall (fun l' => data_line_ok l' = true) before ->
  ends_in_open_paren l = true ->
  forall i result,
    parse_lines i (before ++ l :: after) result = Panics slice_bounds_out_of_range.
Proof.
  intros Hok Hl. induction Hok as [|l' before Hl' _ IH]; intros i result.
  - apply parse_lines_open_paren. exact Hl.
  - rewrite <- app_comm_cons.
    destruct (parse_lines_step i l' (before ++ l :: after) result Hl')
      as (idCode & parts & ->).
    apply IH.
Qed.

(** What the loop can return: an error and no map, or a map and no error;
    the map is the one it started with when there is no line, and has an
    entry when there is one. *)
Lemma parse_lines_returns (ls : list string) :
  forall i result r,
    parse_lines i ls result = Returns r ->
    (exists e, r = (None, Some e))
    \/ (exists m, r = (Some m, None)
                  /\ (ls = [] -> m = result) /\ (ls <> [] -> m <> ∅)).
Proof.
  induction ls as [|l ls IH]; intros i result r H; cbn [parse_lines] in H.
  - inversion H; subst. right. exists result. split; [reflexivity|].
    split; [reflexivity|congruence].
  - destruct (strings.Index l "(") as [k|]; [|inversion H; subst; eauto].
    destruct (strings.slice l 0 k) as [idCode|]; [|discriminate].
    cbn [mbind outcome_bind] in H.
    destruct (strings.slice l (k + 1) (String.length l - 1)) as [values|];
      [|discriminate].
    cbn [mbind outcome_bind] in H.
    apply IH in H as [?|(m & -> & Hnil & Hcons)]; [left; assumption|].
    right. exists m. split; [reflexivity|]. split; [discriminate|].
    intros _. destruct ls as [|l' ls].
    + rewrite Hnil by reflexivity. apply insert_non_empty.
    + apply Hcons. discriminate.
Qed.

Lemma length_append (a b : string) :
  String.length (a +:+ b) = String.length a + String.length b.
Proof. induction a as [|c a IH]; simpl; [reflexivity|]. rewrite IH. reflexivity. Qed.

Lemma take_append (a b : string) : strings.take (String.length a) (a +:+ b) = a.
Proof.
  induction a as [|c a IH]; simpl; [destruct b; reflexivity|].
  rewrite IH. reflexivity.
Qed.

Lemma drop_append (a b : string) (n : nat) :
  strings.drop (String.length a + n) (a +:+ b) = strings.drop n b.
Proof. induction a as [|c a IH]; simpl; [reflexivity|exact IH]. Qed.

Lemma take_all (a : string) : strings.take (String.length a) a = a.
Proof. induction a as [|c a IH]; simpl; [reflexivity|]. rewrite IH. reflexivity. Qed.

Lemma absent_cons (c b : byte) (s : string) :
  absent c (String b s) <-> c <> b /\ absent c s.
Proof. unfold absent. simpl. apply not_elem_of_cons. Qed.

Lemma absent_append (c : byte) (a b : string) :
  absent c (a +:+ b) <-> absent c a /\ absent c b.
Proof.
  induction a as [|x a IH].
  - change ("" +:+ b) with b. split; [intros H; split; [apply not_elem_of_nil|exact H]|tauto].
  - change (String x a +:+ b) with (String x (a +:+ b)).
    rewrite !absent_cons, IH. tauto.
Qed.

Lemma Index_at_separator (a : string) (c : byte) (sep' rest : string) :
  absent c a ->
  strings.Index (a +:+ String c sep' +:+ rest) (String c sep') = Some (String.length a).
Proof.
  induction a as [|b a IH]; intros Hnot.
  - apply Index_prefix. apply (prefix_append (String c sep') rest).
  - apply absent_cons in Hnot as [Hne Hnot].
    change (String b a +:+ String c sep' +:+ rest)
      with (String b (a +:+ String c sep' +:+ rest)).
    cbn [strings.Index String.prefix].
    destruct (ascii_dec c b) as [->|_]; [congruence|].
    rewrite IH by exact Hnot. reflexivity.
Qed.

Lemma Index_absent (s : string) (c : byte) (sep' : string) :
  absent c s -> strings.Index s (String c sep') = None.
Proof.
  induction s as [|b s IH]; intros Hnot; cbn [strings.Index String.prefix].
  - reflexivity.
  - apply absent_cons in Hnot as [Hne Hnot].
    destruct (ascii_dec c b) as [->|_]; [congruence|].
    rewrite IH by exact Hnot. reflexivity.
Qed.

Lemma genSplit_Join (c : byte) (sep' : string) (pieces : list string) :
  Forall (absent c) pieces -> pieces <> [] ->
  forall fuel, length pieces <= S fuel ->
    strings.genSplit fuel (Join pieces (String c sep')) (String c sep') = pieces.
Proof.
  intros Hall. induction Hall as [|p ps Hp Hps IH]; intros Hne fuel Hfuel; [congruence|].
  destruct ps as [|q ps].
  - cbn [Join]. destruct fuel; cbn [strings.genSplit]; [reflexivity|].
    rewrite Index_absent by exact Hp. reflexivity.
  - destruct fuel as [|fuel]; [simpl in Hfuel; lia|].
    change (Join (p :: q :: ps) (String c sep'))
      with (p +:+ String c sep' +:+ Join (q :: ps) (String c sep')).
    cbn [strings.genSplit]. rewrite Index_at_separator by exact Hp.
    rewrite take_append.
    change (p +:+ String c sep' +:+ Join (q :: ps) (String c sep'))
      with (p +:+ (String c sep' +:+ Join (q :: ps) (String c sep'))).
    rewrite drop_append.
    replace (String.length (String c sep')) with (String.length (String c sep') + 0) by lia.
    rewrite drop_append. cbn [strings.drop].
    rewrite IH; [reflexivity|discriminate|simpl in *; lia].
Qed.

Lemma Join_length (pieces : list string) (sep : string) :
  length pieces <= S (String.length (Join pieces sep)) \/ sep = "".
Proof.
  destruct sep as [|c sep']; [right; reflexivity|left].
  induction pieces as [|p ps IH]; [simpl; lia|].
  destruct ps as [|q ps]; [simpl; lia|].
  change (Join (p :: q :: ps) (String c sep'))
    with (p +:+ String c sep' +:+ Join (q :: ps) (String c sep')).
  rewrite !length_append. simpl in *. lia.
Qed.

(** Cutting what was joined gives the pieces back, when the first byte of
    the separator occurs in none of them. *)
Lemma Split_Join (c : byte) (sep' : string) (pieces : list string) :
  Forall (absent c) pieces -> pieces <> [] ->
  strings.Split (Join pieces (String c sep')) (String c sep') = pieces.
Proof.
  intros Hall Hne. unfold strings.Split. apply genSplit_Join; try assumption.
  destruct (Join_length pieces (String c sep')) as [H|H]; [exact H|discriminate].
Qed.

Lemma absent_nil (c : byte) : absent c "".
Proof. apply not_elem_of_nil. Qed.

Lemma absent_Join (c : byte) (pieces : list string) (sep : string) :
  Forall (absent c) pieces -> absent c sep -> absent c (Join pieces sep).
Proof.
  intros Hall Hsep. induction Hall as [|p ps Hp Hps IH]; [apply absent_nil|].
  destruct ps as [|q ps]; [exact Hp|].
  change (Join (p :: q :: ps) sep) with (p +:+ sep +:+ Join (q :: ps) sep).
  rewrite !absent_append. auto.
Qed.

Lemma render_line_absent_CR (r : string * list string) :
  well_formed_record r -> absent CR (render_line r).
Proof.
  intros (_ & Hid & _ & Hvs). unfold render_line.
  rewrite !absent_append. repeat split.
  - exact Hid.
  - apply (bool_decide_unpack _). vm_compute. reflexivity.
  - apply absent_Join.
    + eapply Forall_impl; [exact Hvs|]. intros v [_ H]. exact H.
    + apply (bool_decide_unpack _). vm_compute. reflexivity.
  - apply (bool_decide_unpack _). vm_compute. reflexivity.
Qed.

(** A rendered record is read back as it was written. *)
Lemma parse_lines_render_line (i : nat) (r : string * list string) (ls : list string)
    (result : gmap string (list string)) :
  well_formed_record r ->
  parse_lines i (render_line r :: ls) result
  = parse_lines (S i) ls (<[r.1 := r.2]> result).
Proof.
  destruct r as [id vs]. intros (Hid & _ & Hne & Hvs). cbn [fst snd] in *.
  cbn [parse_lines]. unfold render_line. cbn [fst snd].
  set (joined := Join vs ")(").
  assert (Hlen : String.length (id +:+ "(" +:+ joined +:+ ")")
                 = String.length id + 1 + String.length joined + 1).
  { rewrite !length_append. simpl. lia. }
  rewrite (Index_at_separator id "("%char "" (joined +:+ ")")) by exact Hid.
  rewrite (slice_in_bounds _ 0 (String.length id)) by lia.
  cbn [mbind outcome_bind strings.drop]. rewrite Nat.sub_0_r, take_append.
  rewrite (slice_in_bounds _ (String.length id + 1)) by lia.
  cbn [mbind outcome_bind].
  rewrite drop_append. rewrite Hlen.
  change (strings.drop 1 ("(" +:+ joined +:+ ")")) with (joined +:+ ")").
  replace (String.length id + 1 + String.length joined + 1 - 1 - (String.length id + 1))
    with (String.length joined) by lia.
  rewrite take_append. unfold joined.
  rewrite (Split_Join ")"%char "(" vs); [reflexivity| |exact Hne].
  eapply Forall_impl; [exact Hvs|]. intros v [H _]. exact H.
Qed.

Lemma Split_telegram_of_lines (lines : list string) :
  Forall (absent CR) lines -> lines <> [] ->
  strings.Split (string_of_bytes (telegram_of_lines lines)) CRLF = lines.
Proof.
  intros Hall Hne. unfold telegram_of_lines.
  rewrite string_of_bytes_of_string. apply (Split_Join CR (String LF "")); assumption.
Qed.

(** A telegram with a header line that starts with the start delimiter, an
    empty second line and a last line: [Parse] comes to the loop over the
    lines in between. *)
Lemma Parse_of_lines (h : string) (data : list string) (last : string) :
  absent CR h -> Forall (absent CR) data -> absent CR last ->
  Parse (telegram_of_lines (String "/" h :: "" :: data ++ [last]))
  = parse_lines 0 data ∅.
Proof.
  intros Hh Hdata Hlast. unfold Parse.
  rewrite Split_telegram_of_lines; [|
    repeat constructor;
      [apply absent_cons; split; [discriminate|exact Hh]
      |apply absent_nil
      |apply Forall_app; split; [exact Hdata|repeat constructor; exact Hlast]]
    |discriminate].
  cbn [length Nat.ltb Nat.leb index_list lookup list_lookup mbind outcome_bind
       strings.at_index String.get Ascii.eqb Bool.eqb negb String.length Nat.eqb].
  assert (Hlen : length (data ++ [last]) = S (length data))
    by (rewrite length_app; simpl; lia).
  rewrite slice_list_in_bounds by (cbn [length]; lia).
  cbn [mbind outcome_bind drop]. rewrite Hlen.
  replace (S (S (S (length data))) - 1 - 2) with (length data) by lia.
  rewrite drop_0, take_app_length. reflexivity.
Qed.

Lemma foldl_insert_list_to_map (records : list (string * list string)) :
  foldl (fun m r => <[r.1 := r.2]> m) (∅ : gmap string (list string)) records
  = list_to_map (reverse records).
Proof.
  induction records as [|r records IH] using rev_ind; [reflexivity|].
  rewrite foldl_snoc, reverse_snoc, IH. destruct r. reflexivity.
Qed.

Lemma parse_lines_rendered (records : list (string * list string)) :
  Forall well_formed_record records ->
  forall i result,
    parse_lines i (map render_line records) result
    = Returns (Some (foldl (fun m r => <[r.1 := r.2]> m) result records), None).
Proof.
  intros Hall. induction Hall as [|r records Hr _ IH]; intros i result.
  - reflexivity.
  - cbn [map foldl]. rewrite parse_lines_render_line by exact Hr. apply IH.
Qed.

(** X1: [Parse] reads back what was written. A telegram made of a header
    line that starts with the start delimiter, an empty line, one line
    "id(v1)(v2)..." for each record and a last line gives the map of the
    records; of records with the same identifier the last one stays. The
    last line is skipped, whatever it holds. *)
Theorem Parse_reads_back_rendered_records
    (h last : string) (records : list (string * list string)) :
  absent CR h -> absent CR last ->
  Forall well_formed_record records ->
  Parse (telegram_of_lines (String "/" h :: "" :: map render_line records ++ [last]))
  = Returns (Some (list_to_map (reverse records)), None).
Proof.
  intros Hh Hlast Hall.
  rewrite Parse_of_lines; try assumption.
  - rewrite parse_lines_rendered by exact Hall.
    rewrite foldl_insert_list_to_map. reflexivity.
  - apply Forall_fmap. eapply Forall_impl; [exact Hall|].
    intros r Hr. apply render_line_absent_CR. exact Hr.
Qed.

Lemma parse_lines_rendered_then (records : list (string * list string)) (rest : list string) :
  Forall well_formed_record records ->
  forall i result,
    parse_lines i (map render_line records ++ rest) result
    = parse_lines (i + length records) rest
        (foldl (fun m r => <[r.1 := r.2]> m) result records).
Proof.
  intros Hall. induction Hall as [|r records Hr _ IH]; intros i result.
  - cbn [map app length foldl]. rewrite Nat.add_0_r. reflexivity.
  - cbn [map foldl length]. rewrite <- app_comm_cons.
    rewrite parse_lines_render_line by exact Hr. rewrite IH.
    f_equal. lia.
Qed.

Lemma rendered_absent_CR (records : list (string * list string)) :
  Forall well_formed_record records -> Forall (absent CR) (map render_line records).
Proof.
  intros Hall. apply Forall_fmap. eapply Forall_impl; [exact Hall|].
  intros r Hr. apply render_line_absent_CR. exact Hr.
Qed.

Lemma parse_lines_through (before rest : list string) :
  Forall (fun l => data_line_ok l = true) before ->
  forall i result,
    exists result',
      parse_lines i (before ++ rest) result
      = parse_lines (i + length before) rest result'.
Proof.
  intros Hok. induction Hok as [|l before Hl _ IH]; intros i result.
  - exists result. cbn [app length]. rewrite Nat.add_0_r. reflexivity.
  - rewrite <- app_comm_cons.
    destruct (parse_lines_step i l (before ++ rest) result Hl)
      as (idCode & parts & ->).
    destruct (IH (S i) (<[idCode := parts]> result)) as [result' ->].
    exists result'. cbn [length]. f_equal. lia.
Qed.

(** X3: when every data line before it holds an opening parenthesis with
    at least one byte behind the first one (so that none of them makes
    [Parse] panic), the first data line without an opening parenthesis
    ends [Parse] with an error that carries the index of that line among
    the data lines (counted from 0), and no map, whatever follows it. *)
Theorem Parse_reports_first_line_without_parenthesis
    (h bad last : string) (before after : list string) :
  absent CR h -> absent CR last -> absent CR bad ->
  Forall (absent CR) before -> Forall (absent CR) after ->
  Forall (fun l => data_line_ok l = true) before ->
  absent "("%char bad ->
  Parse (telegram_of_lines
           (String "/" h :: "" :: (before ++ bad :: after) ++ [last]))
  = Returns (None,
             Some (errors_New ("Expected '(', not found on line"
                               +:+ Itoa (length before)))).
Proof.
  intros Hh Hlast Hbad Hbefore Hafter Hok Hparen.
  rewrite Parse_of_lines; try assumption.
  - destruct (parse_lines_through before (bad :: after) Hok 0 ∅) as [result' ->].
    cbn [parse_lines]. rewrite (Index_absent bad "("%char "") by exact Hparen.
    reflexivity.
  - apply Forall_app. split; [exact Hbefore|].
    constructor; assumption.
Qed.

(** X4: a data line that ends in its first opening parenthesis makes
    [Parse] panic (the slice [l[idCodeEnd+1 : len(l)-1]] starts behind its
    end) when the data lines before it are in order, whatever follows. *)
Theorem Parse_panics_on_line_ending_in_parenthesis
    (h idCode last : string) (records : list (string * list string)) (after : list string) :
  absent CR h -> absent CR last -> absent CR idCode -> Forall (absent CR) after ->
  Forall well_formed_record records ->
  absent "("%char idCode ->
  Parse (telegram_of_lines
           (String "/" h :: ""
            :: (map render_line records ++ (idCode +:+ "(") :: after) ++ [last]))
  = Panics slice_bounds_out_of_range.
Proof.
  intros Hh Hlast Hid Hafter Hall Hparen.
  rewrite Parse_of_lines; try assumption.
  - rewrite parse_lines_rendered_then by exact Hall.
    apply parse_lines_open_paren. unfold ends_in_open_paren.
    pose proof (Index_at_separator idCode "("%char "" "" Hparen) as E.
    change (idCode +:+ "(" +:+ "") with (idCode +:+ "(") in E. rewrite E.
    rewrite length_append. apply Nat.eqb_refl.
  - apply Forall_app. split; [apply rendered_absent_CR; exact Hall|].
    constructor; [|assumption].
    apply absent_append. split; [exact Hid|].
    apply (bool_decide_unpack _). vm_compute. reflexivity.
Qed.

Ltac by_computation := apply (bool_decide_unpack _); vm_compute; reflexivity.

Lemma Parse_reads_back_rendered_records_witness :
  Parse (telegram_of_lines
           ("/ISk5\2MT382-1000" :: "" :: map render_line sample_records ++ ["!"]))
  = Returns (Some (list_to_map (reverse sample_records)), None).
Proof.
  apply (Parse_reads_back_rendered_records "ISk5\2MT382-1000" "!" sample_records);
    by_computation.
Defined.

Lemma Parse_reports_first_line_without_parenthesis_witness :
  Parse (telegram_of_lines
           ("/ISk5\2MT382-1000" :: ""
            :: (["1-0:1.8.1(000123.456*kWh)"; "0-0:96.14.0(0002"; "x(y)z"]
                ++ "1-0:2.7.0" :: ["1-0:1.8.2("])
            ++ ["!"]))
  = Returns (None, Some (errors_New "Expected '(', not found on line3")).
Proof.
  apply (Parse_reports_first_line_without_parenthesis
           "ISk5\2MT382-1000" "1-0:2.7.0" "!"
           ["1-0:1.8.1(000123.456*kWh)"; "0-0:96.14.0(0002"; "x(y)z"]
           ["1-0:1.8.2("]);
    by_computation.
Defined.

Lemma Parse_panics_on_line_ending_in_parenthesis_witness :
  Parse (telegram_of_lines
           ("/ISk5\2MT382-1000" :: ""
            :: (map render_line sample_records ++ "1-0:2.7.0(" :: ["1-0:1.8.1(1)"])
            ++ ["!"]))
  = Panics slice_bounds_out_of_range.
Proof.
  apply (Parse_panics_on_line_ending_in_parenthesis
           "ISk5\2MT382-1000" "1-0:2.7.0" "!" sample_records ["1-0:1.8.1(1)"]);
    by_computation.
Defined.

Lemma genSplit_nonempty (fuel : nat) (s sep : string) : strings.genSplit fuel s sep <> [].
Proof. destruct fuel; cbn [strings.genSplit]; [|destruct (strings.Index s sep)]; discriminate. Qed.

Lemma genSplit_S (fuel : nat) (s sep : string) :
  strings.genSplit (S fuel) s sep
  = match strings.Index s sep with
    | None => [s]
    | Some m =>
        strings.take m s
        :: strings.genSplit fuel (strings.drop (m + String.length sep) s) sep
    end.
Proof. reflexivity. Qed.

(** X5: [Parse] panics, instead of returning an error, on a telegram that
    begins with CR LF (the first line is empty, [lines[0][0]] is out of
    range) and on a telegram that is a header line followed by CR LF and
    nothing else (two lines, [lines[2:1]] is out of bounds). *)
Theorem Parse_panics_on_malformed_head :
  (forall rest : string,
      Parse (bytes_of_string (CRLF +:+ rest)) = Panics index_out_of_range)
  /\ (forall h : string,
         absent CR h ->
         Parse (bytes_of_string (String "/" h +:+ CRLF))
         = Panics slice_bounds_out_of_range).
Proof.
  split.
  - intros rest. unfold Parse. rewrite string_of_bytes_of_string.
    unfold strings.Split.
    change (String.length (CRLF +:+ rest)) with (S (S (String.length rest))).
    rewrite genSplit_S.
    rewrite (Index_prefix (CRLF +:+ rest) CRLF) by apply prefix_append.
    cbn [strings.take].
    match goal with
    | |- context [strings.genSplit ?f ?s ?sep] =>
        destruct (strings.genSplit f s sep) as [|l ls] eqn:E
    end; [apply genSplit_nonempty in E; contradiction|].
    reflexivity.
  - intros h Hh.
    change (bytes_of_string (String "/" h +:+ CRLF))
      with (telegram_of_lines [String "/" h; ""]).
    unfold Parse. rewrite Split_telegram_of_lines; [reflexivity| |discriminate].
    repeat constructor; [|apply absent_nil].
    apply absent_cons. split; [discriminate|exact Hh].
Qed.

Lemma Parse_panics_on_malformed_head_witness :
  Parse (bytes_of_string (CRLF +:+ "1-0:1.7.0(0001.234*kW)")) = Panics index_out_of_range
  /\ Parse (bytes_of_string ("/ISk5\2MT382-1000" +:+ CRLF))
     = Panics slice_bounds_out_of_range.
Proof.
  split.
  - apply (proj1 Parse_panics_on_malformed_head).
  - apply (proj2 Parse_panics_on_malformed_head "ISk5\2MT382-1000"). by_computation.
Defined.

(** X6: when [Parse] returns, it returns either an error and no map or a
    map and no error; the map has an entry exactly when the telegram has a
    data line, that is, when it splits into at least four lines. *)
Theorem Parse_returns_error_or_map
    (t : Telegram) (m : option (gmap string (list string))) (err : option error) :
  Parse t = Returns (m, err) ->
  (m = None /\ exists e, err = Some e)
  \/ (err = None
      /\ exists mp, m = Some mp
           /\ (mp <> ∅ <-> 4 <= length (strings.Split (string_of_bytes t) CRLF))).
Proof.
  unfold Parse. set (lines := strings.Split (string_of_bytes t) CRLF).
  destruct (Nat.ltb_spec (length lines) 2) as [Hlt|Hge].
  { intros H. inversion H; subst. left. eauto. }
  destruct lines as [|line0 [|line1 rest]]; try (simpl in Hge; lia).
  cbn [index_list lookup list_lookup mbind outcome_bind].
  destruct (strings.at_index line0 0) as [c|]; [|discriminate].
  cbn [mbind outcome_bind].
  destruct (negb (Ascii.eqb c "/")); [intros H; inversion H; subst; left; eauto|].
  destruct (negb (String.length line1 =? 0));
    [intros H; inversion H; subst; left; eauto|].
  unfold slice_list.
  destruct ((2 <=? length (line0 :: line1 :: rest) - 1)
            && (length (line0 :: line1 :: rest) - 1 <=? length (line0 :: line1 :: rest)))
    eqn:Hb; [|discriminate].
  cbn [mbind outcome_bind]. intros H.
  apply andb_prop in Hb as [Hb _]. apply Nat.leb_le in Hb. cbn [length] in *.
  apply parse_lines_returns in H as [(e & He)|(mp & Hmp & Hnil & Hcons)].
  - inversion He; subst. left. eauto.
  - inversion Hmp; subst. right. split; [reflexivity|]. exists mp.
    split; [reflexivity|]. cbn [drop] in *.
    replace (S (S (length rest)) - 1 - 2) with (length rest - 1) in * by lia.
    destruct (decide (2 <= length rest)) as [Hlen|Hlen].
    + split; [lia|]. intros _. apply Hcons.
      intros Hempty. apply (f_equal length) in Hempty.
      rewrite length_take, ?length_drop in Hempty. simpl in Hempty. lia.
    + split; [|lia]. intros Hne. exfalso. apply Hne, Hnil.
      apply length_zero_iff_nil. rewrite length_take, ?length_drop. lia.
Qed.

Lemma Parse_returns_error_or_map_witness :
  Parse (telegram_of_lines
           ("/ISk5\2MT382-1000" :: "" :: map render_line sample_records ++ ["!"]))
  = Returns (Some (list_to_map (reverse sample_records)), None)
  /\ ((list_to_map (reverse sample_records) : gmap string (list string)) <> ∅
      <-> 4 <= length (strings.Split
                         (string_of_bytes
                            (telegram_of_lines
                               ("/ISk5\2MT382-1000" :: ""
                                :: map render_line sample_records ++ ["!"])))
                         CRLF)).
Proof.
  assert (H : Parse (telegram_of_lines
                       ("/ISk5\2MT382-1000" :: ""
                        :: map render_line sample_records ++ ["!"]))
              = Returns (Some (list_to_map (reverse sample_records)), None))
    by (vm_compute; reflexivity).
  split; [exact H|].
  destruct (Parse_returns_error_or_map _ _ _ H) as [[Hm _]|(_ & mp & Hmp & Hiff)];
    [discriminate|].
  inversion Hmp; subst. exact Hiff.
Defined.

Lemma Split_first_line (s : string) :
  exists l ls, strings.Split (String "/" s) CRLF = String "/" l :: ls.
Proof.
  unfold strings.Split. cbn [String.length]. rewrite genSplit_S.
  cbn [strings.Index String.prefix CRLF].
  destruct (ascii_dec CR "/") as [E|_]; [discriminate E|].
  destruct (strings.Index s CRLF) as [k|]; cbn [option_map].
  - cbn [strings.take]. eauto.
  - eauto.
Qed.

Lemma slice_panic_kind (s : string) (lo hi : nat) (p : runtime_error) :
  strings.slice s lo hi = Panics p -> p = slice_bounds_out_of_range.
Proof. unfold strings.slice. destruct (_ && _); intros [=]; congruence. Qed.

Lemma parse_lines_never (ls : list string) :
  forall i result,
    parse_lines i ls result <> Panics index_out_of_range
    /\ parse_lines i ls result
       <> Returns (None, Some (errors_New "expected '/' missing in first line of telegram")).
Proof.
  induction ls as [|l ls IH]; intros i result; cbn [parse_lines].
  - split; discriminate.
  - destruct (strings.Index l "(") as [k|].
    2:{ split; [discriminate|intros [=]]. }
    destruct (strings.slice l 0 k) as [idCode|p] eqn:E1; cbn [mbind outcome_bind].
    2:{ apply slice_panic_kind in E1 as ->. split; discriminate. }
    destruct (strings.slice l (k + 1) (String.length l - 1)) as [values|p] eqn:E2;
      cbn [mbind outcome_bind].
    2:{ apply slice_panic_kind in E2 as ->. split; discriminate. }
    apply IH.
Qed.

(** X7: on a telegram that starts with the start delimiter, as every
    telegram from the channel does, [Parse] never panics with an index out
    of range and never reports the start delimiter as missing. *)
Theorem Parse_accepts_start_delimiter (rest : list byte) :
  Parse ("/"%char :: rest) <> Panics index_out_of_range
  /\ Parse ("/"%char :: rest)
     <> Returns (None, Some (errors_New "expected '/' missing in first line of telegram")).
Proof.
  unfold Parse.
  change (string_of_bytes ("/"%char :: rest)) with (String "/" (string_of_bytes rest)).
  destruct (Split_first_line (string_of_bytes rest)) as (l & ls & ->).
  destruct ls as [|line1 ls]; [split; discriminate|].
  cbn [length Nat.ltb Nat.leb index_list lookup list_lookup mbind outcome_bind
       strings.at_index String.get Ascii.eqb Bool.eqb negb].
  destruct (negb (String.length line1 =? 0)); [split; discriminate|].
  unfold slice_list. destruct (_ && _); cbn [mbind outcome_bind]; [|split; discriminate].
  apply parse_lines_never.
Qed.

Lemma list_to_map_later_wins (before after : list (string * list string))
    (id : string) (vs : list string) :
  id ∉ after.*1 ->
  (list_to_map (reverse (before ++ (id, vs) :: after)) : gmap string (list string)) !! id
  = Some vs.
Proof.
  intros Hnot. rewrite reverse_app, reverse_cons, <- app_assoc.
  rewrite list_to_map_app. rewrite lookup_union_r.
  - cbn [app]. rewrite list_to_map_cons. apply lookup_insert_eq.
  - apply not_elem_of_list_to_map_1. rewrite fmap_reverse, elem_of_reverse. exact Hnot.
Qed.

(** X2: when an identifier occurs on several data lines, the map [Parse]
    returns holds the values of the last of them; the earlier values are
    overwritten without an error. *)
Theorem Parse_keeps_the_last_of_equal_identifiers
    (h last id : string) (vs : list string) (before after : list (string * list string)) :
  absent CR h -> absent CR last ->
  Forall well_formed_record (before ++ (id, vs) :: after) ->
  id ∉ after.*1 ->
  exists m,
    Parse (telegram_of_lines
             (String "/" h :: ""
              :: map render_line (before ++ (id, vs) :: after) ++ [last]))
    = Returns (Some m, None)
    /\ m !! id = Some vs.
Proof.
  intros Hh Hlast Hall Hnot.
  exists (list_to_map (reverse (before ++ (id, vs) :: after))). split.
  - rewrite Parse_of_lines; try assumption; [|apply rendered_absent_CR; exact Hall].
    rewrite parse_lines_rendered by exact Hall.
    rewrite foldl_insert_list_to_map. reflexivity.
  - apply list_to_map_later_wins. exact Hnot.
Qed.

Lemma Parse_keeps_the_last_of_equal_identifiers_witness :
  exists m,
    Parse (telegram_of_lines
             ("/ISk5\2MT382-1000" :: "" :: map render_line sample_records ++ ["!"]))
    = Returns (Some m, None)
    /\ m !! "1-0:1.7.0" = Some ["0002.000*kW"].
Proof.
  apply (Parse_keeps_the_last_of_equal_identifiers
           "ISk5\2MT382-1000" "!" "1-0:1.7.0" ["0002.000*kW"]
           [("0-0:1.0.0", ["210315120000W"]);
            ("1-0:1.7.0", ["0001.234*kW"]);
            ("0-1:24.2.1", ["210315120000W"; "00012.345*m3"])]
           []); by_computation.
Defined.

Lemma Identifier_skips_five_bytes_witness :
  Identifier (bytes_of_string "/ISk5" ++ bytes_of_string "\2MT382-1000"
              ++ [CR; LF; CR; LF] ++ bytes_of_string "1-0:1.7.0(0001.234*kW)")
  = Returns "\2MT382-1000".
Proof.
  apply (Identifier_skips_five_bytes (bytes_of_string "/ISk5")
           (bytes_of_string "\2MT382-1000")
           (bytes_of_string "1-0:1.7.0(0001.234*kW)")).
  - reflexivity.
  - by_computation.
Defined.

Lemma slice_list_out_of_bounds {A} (l : list A) (lo hi : nat) :
  hi < lo -> slice_list l lo hi = Panics slice_bounds_out_of_range.
Proof.
  intros H. unfold slice_list. rewrite (proj2 (Nat.leb_gt lo hi) H). reflexivity.
Qed.

(** X10: [Identifier] panics when fewer than five bytes stand before the
    first CR LF CR LF (the slice [t[5:i]] ends before it starts), and when
    the telegram holds no carriage return at all (the index is -1). *)
Theorem Identifier_panics_without_room :
  (forall front rest : list byte,
      length front < 5 -> CR ∉ front ->
      Identifier (front ++ [CR; LF; CR; LF] ++ rest) = Panics slice_bounds_out_of_range)
  /\ (forall t : Telegram,
         CR ∉ t -> Identifier t = Panics slice_bounds_out_of_range).
Proof.
  split.
  - intros front rest Hlen Hnot. unfold Identifier, bytes.Index.
    rewrite string_of_bytes_of_string, string_of_bytes_app.
    change (string_of_bytes ([CR; LF; CR; LF] ++ rest))
      with (String CR (String LF CRLF) +:+ string_of_bytes rest).
    change (CRLF +:+ CRLF) with (String CR (String LF CRLF)).
    rewrite Index_first_byte by exact Hnot.
    rewrite slice_list_out_of_bounds by exact Hlen. reflexivity.
  - intros t Hnot. unfold Identifier, bytes.Index.
    rewrite string_of_bytes_of_string.
    change (CRLF +:+ CRLF) with (String CR (String LF CRLF)).
    rewrite Index_absent; [reflexivity|].
    unfold absent, bytes_of_string, string_of_bytes.
    rewrite list_ascii_of_string_of_list_ascii. exact Hnot.
Qed.

Lemma Identifier_panics_without_room_witness :
  Identifier (bytes_of_string "/HDR" ++ [CR; LF; CR; LF]
              ++ bytes_of_string "1-0:1.7.0(0001.234*kW)")
  = Panics slice_bounds_out_of_range
  /\ Identifier (bytes_of_string "/ISk5\2MT382-1000!") = Panics slice_bounds_out_of_range.
Proof.
  split.
  - apply (proj1 Identifier_panics_without_room (bytes_of_string "/HDR")).
    + simpl. lia.
    + by_computation.
  - apply (proj2 Identifier_panics_without_room). by_computation.
Defined.

(** ** [ParseValueWithUnit] and [ParseTimestamp] *)

(** X13: [ParseValueWithUnit] never panics, whatever the input and whatever
    [strconv.ParseFloat] returns: the two index expressions and the slice
    [unit[1:]] are always within bounds. *)
Theorem ParseValueWithUnit_never_panics
    (ParseFloat : string -> float * option error) (input : string) :
  exists r, ParseValueWithUnit ParseFloat input = Returns r.
Proof.
  unfold ParseValueWithUnit.
  destruct (strings.Split input "*") as [|part0 [|part1 [|part2 parts]]];
    cbn [length Nat.eqb negb]; eauto.
  cbn [index_list lookup list_lookup mbind outcome_bind].
  destruct (ParseFloat part0) as [value [e|]]; eauto.
  destruct (strings.HasPrefix part1 "k") eqn:E; eauto.
  destruct part1 as [|c rest]; [discriminate E|].
  rewrite slice_in_bounds by (simpl; lia).
  cbn [mbind outcome_bind]. eauto.
Qed.

Lemma HasPrefix_k (s : string) :
  strings.HasPrefix s "k" = true -> exists rest, s = String "k" rest.
Proof.
  unfold strings.HasPrefix. destruct s as [|c rest]; cbn [String.prefix]; [discriminate|].
  destruct (ascii_dec "k" c) as [<-|]; [eauto|discriminate].
Qed.

(** X11: on an input "number*unit" with no further asterisk,
    [ParseValueWithUnit] hands the number to [strconv.ParseFloat]; an error
    of that call is returned with its value and the empty unit; otherwise a
    unit "k..." gives the value times 1000 and the unit without the "k", and
    any other unit gives the value and the unit as they are. *)
Theorem ParseValueWithUnit_scales_kilo
    (ParseFloat : string -> float * option error) (number unit_ : string) (value : float) :
  absent "*"%char number -> absent "*"%char unit_ ->
  (forall e, ParseFloat number = (value, Some e) ->
     ParseValueWithUnit ParseFloat (number +:+ "*" +:+ unit_)
     = Returns (value, "", Some e))
  /\ (ParseFloat number = (value, None) ->
      (forall rest, unit_ = String "k" rest ->
         ParseValueWithUnit ParseFloat (number +:+ "*" +:+ unit_)
         = Returns (PrimFloat.mul value 1000%float, rest, None))
      /\ (strings.HasPrefix unit_ "k" = false ->
          ParseValueWithUnit ParseFloat (number +:+ "*" +:+ unit_)
          = Returns (value, unit_, None))).
Proof.
  intros Hnumber Hunit.
  assert (Hsplit : strings.Split (number +:+ "*" +:+ unit_) "*" = [number; unit_]).
  { apply (Split_Join "*"%char "" [number; unit_]); [|discriminate].
    repeat constructor; assumption. }
  unfold ParseValueWithUnit. rewrite Hsplit.
  cbn [length Nat.eqb negb index_list lookup list_lookup mbind outcome_bind].
  split.
  - intros e ->. reflexivity.
  - intros ->. split.
    + intros rest ->. cbn [strings.HasPrefix String.prefix].
      destruct (ascii_dec "k" "k") as [_|Hne]; [|congruence].
      assert (Hp : String.prefix "" rest = true) by (destruct rest; reflexivity).
      rewrite Hp. rewrite slice_in_bounds by (simpl; lia).
      cbn [mbind outcome_bind strings.drop String.length].
      replace (S (String.length rest) - 1) with (String.length rest) by lia.
      rewrite take_all. reflexivity.
    + intros ->. reflexivity.
Qed.

Lemma ParseValueWithUnit_scales_kilo_witness :
  ParseValueWithUnit ParseFloat_decimal "1234.567*kWh" = Returns (1234567%float, "Wh", None)
  /\ ParseValueWithUnit ParseFloat_decimal "230.0*V" = Returns (230%float, "V", None).
Proof.
  split.
  - apply (proj1 (proj2 (ParseValueWithUnit_scales_kilo ParseFloat_decimal
                           "1234.567" "kWh" 0x1.34a449ba5e354p+10%float
                           ltac:(by_computation) ltac:(by_computation))
                    ltac:(vm_compute; reflexivity)) "Wh").
    reflexivity.
  - apply (proj2 (proj2 (ParseValueWithUnit_scales_kilo ParseFloat_decimal
                           "230.0" "V" 230%float
                           ltac:(by_computation) ltac:(by_computation))
                    ltac:(vm_compute; reflexivity))).
    reflexivity.
Defined.

(** X12: an input with no asterisk, or with more than one, is rejected
    with [ErrorParseValueWithUnit], the zero value and the empty unit,
    before [strconv.ParseFloat] is consulted. *)
Theorem ParseValueWithUnit_wants_one_asterisk
    (ParseFloat : string -> float * option error) (pieces : list string) :
  Forall (absent "*"%char) pieces -> pieces <> [] -> length pieces <> 2 ->
  ParseValueWithUnit ParseFloat (Join pieces "*")
  = Returns (0%float, "", Some ErrorParseValueWithUnit).
Proof.
  intros Hall Hne Hlen. unfold ParseValueWithUnit.
  rewrite (Split_Join "*"%char "" pieces) by assumption.
  destruct (Nat.eqb_spec (length pieces) 2) as [E|_]; [contradiction|reflexivity].
Qed.

Lemma ParseValueWithUnit_wants_one_asterisk_witness :
  ParseValueWithUnit ParseFloat_decimal "0001.234"
  = Returns (0%float, "", Some ErrorParseValueWithUnit)
  /\ ParseValueWithUnit ParseFloat_decimal "1*2*kW"
     = Returns (0%float, "", Some ErrorParseValueWithUnit).
Proof.
  split.
  - apply (ParseValueWithUnit_wants_one_asterisk ParseFloat_decimal ["0001.234"]);
      [by_computation|discriminate|simpl; lia].
  - apply (ParseValueWithUnit_wants_one_asterisk ParseFloat_decimal ["1"; "2"; "kW"]);
      [by_computation|discriminate|simpl; lia].
Defined.

Lemma get_last (front : string) (c : byte) :
  String.get (String.length front) (front +:+ String c "") = Some c.
Proof. induction front as [|b front IH]; [reflexivity|exact IH]. Qed.

Lemma length_snoc (front : string) (c : byte) :
  String.length (front +:+ String c "") - 1 = String.length front.
Proof. rewrite length_append. simpl. lia. Qed.

Section TimestampProperties.
Variables Time Location : Type.
Variable zeroTime : Time.
Variable LoadLocation : string -> Location * option error.
Variable ParseInLocation : string -> string -> Location -> Time * option error.

Lemma ParseTimestamp_indicator (front : string) (c : byte) :
  ParseTimestamp Time Location zeroTime LoadLocation ParseInLocation
    (front +:+ String c "")
  = match (if Ascii.eqb c "S" then Some summerTimezone
           else if Ascii.eqb c "W" then Some winterTimezone else None) with
    | None => Returns (zeroTime, Some ErrorParseTimestamp)
    | Some timezone =>
        Returns (ParseInLocation "060102150405 MST" (front +:+ " " +:+ timezone)
                   (LoadLocation "Europe/Amsterdam").1)
    end.
Proof.
  unfold ParseTimestamp, strings.at_index.
  rewrite length_snoc, get_last. cbn [mbind outcome_bind].
  destruct (if Ascii.eqb c "S" then _ else _) as [timezone|]; [|reflexivity].
  destruct (LoadLocation "Europe/Amsterdam") as [loc err0].
  rewrite slice_in_bounds by (rewrite ?length_append; lia).
  cbn [mbind outcome_bind strings.drop fst]. rewrite Nat.sub_0_r, take_append.
  destruct (ParseInLocation _ _ _) as [ts [e|]]; reflexivity.
Qed.
End TimestampProperties.

(** X14: a timestamp that ends in S is parsed by [time.ParseInLocation]
    with the layout "060102150405 MST" from the text before the S followed
    by " CEST", one that ends in W from that text followed by " CET", both
    in the location "Europe/Amsterdam"; the time and the error of that call
    are returned unchanged, and the error of [time.LoadLocation] is not
    looked at. *)
Theorem ParseTimestamp_delegates
    (Time Location : Type) (zeroTime : Time)
    (LoadLocation : string -> Location * option error)
    (ParseInLocation : string -> string -> Location -> Time * option error)
    (front : string) :
  ParseTimestamp Time Location zeroTime LoadLocation ParseInLocation (front +:+ "S")
  = Returns (ParseInLocation "060102150405 MST" (front +:+ " CEST")
               (LoadLocation "Europe/Amsterdam").1)
  /\ ParseTimestamp Time Location zeroTime LoadLocation ParseInLocation (front +:+ "W")
     = Returns (ParseInLocation "060102150405 MST" (front +:+ " CET")
                  (LoadLocation "Europe/Amsterdam").1).
Proof. split; apply ParseTimestamp_indicator. Qed.

(** X15: a timestamp whose last byte is neither S nor W is rejected with
    [ErrorParseTimestamp] and the zero time, without a call to the [time]
    package; the empty timestamp makes [ParseTimestamp] panic, since it has
    no last byte. *)
Theorem ParseTimestamp_wants_indicator
    (Time Location : Type) (zeroTime : Time)
    (LoadLocation : string -> Location * option error)
    (ParseInLocation : string -> string -> Location -> Time * option error) :
  (forall (front : string) (c : byte),
      c <> "S"%char -> c <> "W"%char ->
      ParseTimestamp Time Location zeroTime LoadLocation ParseInLocation
        (front +:+ String c "")
      = Returns (zeroTime, Some ErrorParseTimestamp))
  /\ ParseTimestamp Time Location zeroTime LoadLocation ParseInLocation ""
     = Panics index_out_of_range.
Proof.
  split; [|reflexivity].
  intros front c HS HW. rewrite ParseTimestamp_indicator.
  destruct (Ascii.eqb_spec c "S"); [contradiction|].
  destruct (Ascii.eqb_spec c "W"); [contradiction|]. reflexivity.
Qed.

Lemma ParseTimestamp_wants_indicator_witness :
  ParseTimestamp unit unit tt
    (fun _ => (tt, None)) (fun _ _ _ => (tt, None)) "210315120000X"
  = Returns (tt, Some ErrorParseTimestamp).
Proof.
  apply (proj1 (ParseTimestamp_wants_indicator unit unit tt
                  (fun _ => (tt, None)) (fun _ _ _ => (tt, None)))
           "210315120000" "X"%char); discriminate.
Defined.

(** ** More on the frame reader *)

Lemma poll_loop_S (fuel : nat) (p : poller) :
  poll_loop (S fuel) p
  = match iteration p with
    | (Break, p') => Some p'
    | (Continue, p') => poll_loop fuel p'
    end.
Proof. reflexivity. Qed.

Lemma poll_loop_clean_frames (tail : list byte) (frames : list (list byte * list byte)) :
  "/"%char ∉ tail -> Forall clean_frame frames ->
  forall p, bufio.src (br p) = stream (wire_of frames ++ tail) ->
    exists q, poll_loop (S (length frames)) p = Some q
              /\ sent q = sent p ++ map (fun f => body f.2) frames
              /\ closed q = closed p
              /\ logged q = logged p.
Proof.
  intros Htail Hall. induction Hall as [|[noise middle] frames [Hn Hm] _ IH]; intros p Hsrc.
  - destruct (iteration_eof p tail Htail Hsrc) as (q & E & Hs & Hc & Hl).
    exists q. rewrite poll_loop_S, E. cbn [map]. rewrite app_nil_r. auto.
  - cbn [fst snd] in *.
    destruct (trailer_of_shape (body middle)) as (x & Hx & HLF & Hok).
    destruct (iteration_frame p noise middle x (stream (wire_of frames ++ tail)))
      as (p1 & E1 & S1 & C1 & D1); try assumption.
    { rewrite Hsrc. cbn [wire_of]. rewrite Hx, !stream_app, <- !app_assoc.
      rewrite <- !stream_app. reflexivity. }
    rewrite Hok in D1. destruct D1 as [D1 L1].
    destruct (IH p1 S1) as (q & Hq & Hs & Hc & Hl).
    exists q. cbn [length]. rewrite poll_loop_S, E1.
    split; [exact Hq|]. cbn [map snd].
    rewrite Hs, D1, <- app_assoc. split; [reflexivity|]. split; congruence.
Qed.

(** X16: on a wire that carries well-formed frames, each behind noise
    without a start delimiter and followed at once by its trailer, and
    behind the last frame only such noise, the reader sends every frame, in
    the order of the wire, logs nothing and closes the channel. *)
Theorem every_clean_frame_is_delivered
    (frames : list (list byte * list byte)) (tail : list byte) :
  Forall clean_frame frames -> "/"%char ∉ tail ->
  exists q,
    startPolling (stream (wire_of frames ++ tail)) = Some q
    /\ sent q = map (fun f => body f.2) frames
    /\ closed q = true
    /\ logged q = [].
Proof.
  intros Hall Htail.
  destruct (poll_loop_clean_frames tail frames Htail Hall
              (on_entry (stream (wire_of frames ++ tail))) eq_refl)
    as (q & Hq & Hs & _ & Hl).
  exists (close q). split; [exact (startPolling_from_loop _ _ _ Hq)|].
  cbn [close sent closed logged]. auto.
Qed.

Lemma every_clean_frame_is_delivered_witness :
  exists q,
    startPolling
      (stream (wire_of [(bytes_of_string "xx", bytes_of_string "a");
                        ([], bytes_of_string "b/c");
                        ([CR; LF], [])]
               ++ bytes_of_string "!!"))
    = Some q
    /\ sent q = [body (bytes_of_string "a"); body (bytes_of_string "b/c"); body []]
    /\ closed q = true
    /\ logged q = [].
Proof.
  apply (every_clean_frame_is_delivered
           [(bytes_of_string "xx", bytes_of_string "a");
            ([], bytes_of_string "b/c");
            ([CR; LF], [])]
           (bytes_of_string "!!")); by_computation.
Defined.

Lemma accepts_length (t crcBytes : list byte) :
  accepts t crcBytes = true -> length crcBytes = 6.
Proof. unfold accepts. intros H. apply andb_prop in H as [H _]. apply Nat.eqb_eq, H. Qed.

Lemma accepts_wrong_length (t crcBytes : list byte) :
  length crcBytes <> 6 -> accepts t crcBytes = false.
Proof.
  intros H. unfold accepts. destruct (Nat.eqb_spec (length crcBytes) 6); [contradiction|].
  reflexivity.
Qed.

(** X18: when the trailer of a frame is not ended by a line feed, the
    reader takes everything up to the next line feed for the trailer: a
    second frame that follows on the same line is lost together with the
    first, although its own trailer is right. *)
Theorem missing_line_feed_loses_next_frame (m1 junk m2 : list byte) :
  "!"%char ∉ m1 -> LF ∉ junk -> LF ∉ m2 ->
  exists q,
    startPolling (stream (body m1 ++ junk ++ body m2 ++ trailer_of (body m2))) = Some q
    /\ sent q = []
    /\ closed q = true.
Proof.
  intros Hm1 Hjunk Hm2.
  destruct (trailer_of_shape (body m2)) as (x2 & -> & Hx2 & Hok2).
  apply accepts_length in Hok2. rewrite length_app in Hok2. cbn [length] in Hok2.
  set (input := stream _).
  destruct (iteration_frame (on_entry input) [] m1 (junk ++ body m2 ++ x2) [])
    as (p1 & E1 & S1 & C1 & D1).
  - apply not_elem_of_nil.
  - exact Hm1.
  - rewrite !not_elem_of_app. split; [exact Hjunk|]. split; [|exact Hx2].
    unfold body. rewrite not_elem_of_cons, not_elem_of_app, not_elem_of_cons.
    repeat split; try discriminate; try assumption. apply not_elem_of_nil.
  - unfold input. cbn [on_entry br bufio.NewReader bufio.src app stream map].
    rewrite app_nil_r. fold (stream (body m1 ++ junk ++ body m2 ++ x2 ++ [LF])).
    rewrite <- !stream_app, <- !app_assoc. reflexivity.
  - rewrite accepts_wrong_length in D1.
    2:{ rewrite !length_app. unfold body. cbn [length]. rewrite length_app. cbn [length]. lia. }
    destruct D1 as [D1 _].
    destruct (iteration_eof p1 []) as (p2 & E2 & D2 & C2 & _);
      [apply not_elem_of_nil|rewrite S1; reflexivity|].
    exists (close p2). split.
    + apply (startPolling_from_loop input 2). rewrite poll_loop_S, E1, poll_loop_S, E2.
      reflexivity.
    + cbn [close sent closed]. rewrite D2, D1. auto.
Qed.

Lemma missing_line_feed_loses_next_frame_witness :
  exists q,
    startPolling
      (stream (body (bytes_of_string "a")
               ++ bytes_of_string "41D8" ++ [CR] ++ body (bytes_of_string "b")
               ++ trailer_of (body (bytes_of_string "b"))))
    = Some q
    /\ sent q = []
    /\ closed q = true.
Proof.
  apply (missing_line_feed_loses_next_frame
           (bytes_of_string "a") (bytes_of_string "41D8" ++ [CR]) (bytes_of_string "b"));
    by_computation.
Defined.






(** What a pass sends, if it sends: a start delimiter, bytes without an
    end delimiter, an end delimiter. *)
Lemma iteration_sends_body (p : poller) (fl : flow) (p' : poller) :
  iteration p = (fl, p') ->
  sent p' = sent p
  \/ exists middle, ("!"%char ∉ middle) /\ sent p' = sent p ++ [body middle].
Proof.
  unfold iteration.
  destruct (bufio.ReadBytes "/" (br p)) as [[d0 err0] r0] eqn:E0.
  apply ReadBytes_inv in E0 as [E0 L0].
  destruct err0 as [e0|].
  { destruct e0; intros [= <- <-]; left; reflexivity. }
  apply readUntil_inv in E0 as (front0 & -> & _ & Hs0). simpl.
  rewrite (UnreadByte_after_read r0 front0 "/"%char)
    by (rewrite L0, last_snoc; reflexivity).
  simpl.
  destruct (bufio.ReadBytes "!" _) as [[data err1] r1] eqn:E1.
  apply ReadBytes_inv in E1 as [E1 _]. simpl in E1.
  destruct (bufio.readUntil "!" (bufio.src r0)) as [[d1 err1'] rest1] eqn:E1'.
  inversion E1; subst data err1' rest1. clear E1.
  destruct err1 as [e1|]; [intros [= <- <-]; left; reflexivity|].
  apply readUntil_inv in E1' as (front1 & -> & Hnot & _).
  destruct (bufio.ReadBytes LF r1) as [[crcBytes err2] r2].
  destruct err2 as [e2|]; [intros [= <- <-]; left; reflexivity|].
  destruct (negb _); [intros [= <- <-]; left; reflexivity|].
  destruct (String.eqb _ _); intros [= <- <-]; [|left; reflexivity].
  right. exists front1. split; [exact Hnot|reflexivity].
Qed.

Lemma poll_loop_sends_bodies (fuel : nat) :
  forall p q, poll_loop fuel p = Some q ->
    exists new, sent q = sent p ++ new
                /\ Forall (fun t => exists middle, t = body middle /\ "!"%char ∉ middle) new.
Proof.
  induction fuel as [|fuel IH]; intros p q H; [discriminate|].
  rewrite poll_loop_S in H. destruct (iteration p) as [fl p'] eqn:E.
  apply iteration_sends_body in E.
  assert (Hq : exists new, sent q = sent p' ++ new
               /\ Forall (fun t => exists middle, t = body middle /\ "!"%char ∉ middle) new).
  { destruct fl; [|apply IH; exact H].
    inversion H; subst. exists []. rewrite app_nil_r. auto. }
  destruct Hq as (new & Hnew & Hall).
  destruct E as [E|(middle & Hnot & E)]; rewrite E in Hnew.
  - eauto.
  - exists (body middle :: new). rewrite <- app_assoc in Hnew. split; [exact Hnew|].
    constructor; [eauto|exact Hall].
Qed.

(** X20: whatever the input, every telegram the reader sends is a start
    delimiter, then bytes among which there is no end delimiter, then an
    end delimiter: the capture ends at the first '!' behind the '/', also
    when that '!' stands inside a value. *)
Theorem sent_telegrams_end_at_first_end_delimiter (input : list item) :
  exists q,
    startPolling input = Some q
    /\ Forall (fun t => exists middle, t = body middle /\ "!"%char ∉ middle) (sent q).
Proof.
  destruct (poll_loop_terminates (S (length input)) (on_entry input)) as [q Hq];
    [simpl; lia|].
  exists (close q). split; [unfold startPolling; rewrite Hq; reflexivity|].
  apply poll_loop_sends_bodies in Hq as (new & Hsent & Hall).
  cbn [close sent on_entry app] in *. rewrite Hsent. exact Hall.
Qed.

(** ** More on the checksum *)

Section ChecksumAlgebra.
Local Open Scope Z_scope.

Lemma p1crc16_fold (data : list byte) : p1crc16 data = fold_left crc_step data 0.
Proof. reflexivity. Qed.

Lemma byte_to_Z_range (b : byte) : 0 <= byte_to_Z b < 256.
Proof.
  unfold byte_to_Z. pose proof (N_ascii_bounded b) as H. lia.
Qed.

Lemma low_byte_range (crc : Z) : 0 <= crc16.low_byte crc < 256.
Proof. rewrite low_byte_mod. apply Z.mod_pos_bound. lia. Qed.

Lemma low_byte_lxor (a b : Z) :
  crc16.low_byte (Z.lxor a b) = Z.lxor (crc16.low_byte a) (crc16.low_byte b).
Proof.
  unfold crc16.low_byte. apply Z.bits_inj'. intros n Hn.
  rewrite !Z.land_spec, !Z.lxor_spec, !Z.land_spec.
  destruct (Z.testbit a n), (Z.testbit b n), (Z.testbit 255 n); reflexivity.
Qed.

Lemma lxor_byte_range (a b : Z) : 0 <= a < 256 -> 0 <= b < 256 -> 0 <= Z.lxor a b < 256.
Proof.
  intros Ha Hb. split.
  - apply Z.lxor_nonneg. lia.
  - destruct (Z.eq_dec (Z.lxor a b) 0) as [->|Hne]; [lia|].
    change 256 with (2 ^ 8). apply Z.log2_lt_pow2.
    + pose proof (proj2 (Z.lxor_nonneg a b)) as H. lia.
    + pose proof (Z.log2_lxor a b ltac:(lia) ltac:(lia)) as Hl.
      assert (Z.log2 a < 8).
      { destruct (Z.eq_dec a 0) as [->|]; [simpl; lia|]. apply Z.log2_lt_pow2; lia. }
      assert (Z.log2 b < 8).
      { destruct (Z.eq_dec b 0) as [->|]; [simpl; lia|]. apply Z.log2_lt_pow2; lia. }
      lia.
Qed.

(** The table is linear over GF(2): checked entry by entry. *)
Lemma IBMTable_linear (i j : Z) :
  0 <= i < 256 -> 0 <= j < 256 ->
  crc16.entry crc16.IBMTable (Z.lxor i j)
  = Z.lxor (crc16.entry crc16.IBMTable i) (crc16.entry crc16.IBMTable j).
Proof.
  intros Hi Hj.
  assert (H : forallb (fun a => forallb (fun b =>
                crc16.entry crc16.IBMTable (Z.lxor (Z.of_nat a) (Z.of_nat b))
                =? Z.lxor (crc16.entry crc16.IBMTable (Z.of_nat a))
                          (crc16.entry crc16.IBMTable (Z.of_nat b)))
              (seq 0 256)) (seq 0 256) = true)
    by (vm_compute; reflexivity).
  rewrite forallb_forall in H.
  specialize (H (Z.to_nat i)). rewrite forallb_forall in H.
  specialize (H ltac:(apply in_seq; lia) (Z.to_nat j) ltac:(apply in_seq; lia)).
  rewrite !Z2Nat.id in H by lia. apply Z.eqb_eq. exact H.
Qed.

Lemma crc_step_lxor (c1 c2 : Z) (va vb vc : byte) :
  byte_to_Z vc = Z.lxor (byte_to_Z va) (byte_to_Z vb) ->
  crc_step (Z.lxor c1 c2) vc = Z.lxor (crc_step c1 va) (crc_step c2 vb).
Proof.
  intros Hv. unfold crc_step. rewrite Hv, low_byte_lxor, Z.shiftr_lxor.
  replace (Z.lxor (Z.lxor (crc16.low_byte c1) (crc16.low_byte c2))
                  (Z.lxor (byte_to_Z va) (byte_to_Z vb)))
    with (Z.lxor (Z.lxor (crc16.low_byte c1) (byte_to_Z va))
                 (Z.lxor (crc16.low_byte c2) (byte_to_Z vb))).
  2:{ rewrite !Z.lxor_assoc. f_equal.
      rewrite <- !Z.lxor_assoc. f_equal. apply Z.lxor_comm. }
  rewrite IBMTable_linear
    by (apply lxor_byte_range; auto using low_byte_range, byte_to_Z_range).
  rewrite !Z.lxor_assoc. f_equal.
  rewrite <- !Z.lxor_assoc. f_equal. apply Z.lxor_comm.
Qed.
End ChecksumAlgebra.

(** X22: the checksum of the bytewise exclusive or of two byte sequences of
    equal length is the exclusive or of their checksums: with the
    accumulator started at 0 and no complement, the checksum is linear. *)
Theorem p1crc16_is_linear (a b c : list byte) :
  Forall3 (fun va vb vc => byte_to_Z vc = Z.lxor (byte_to_Z va) (byte_to_Z vb)) a b c ->
  p1crc16 c = Z.lxor (p1crc16 a) (p1crc16 b).
Proof.
  intros H. rewrite !p1crc16_fold.
  change 0%Z with (Z.lxor 0 0) at 1.
  generalize 0%Z at 2 4. generalize 0%Z at 1 2.
  induction H as [|va vb vc a b c Hv _ IH]; intros c1 c2; cbn [fold_left].
  - reflexivity.
  - rewrite (crc_step_lxor c1 c2 va vb vc Hv). apply IH.
Qed.

Lemma p1crc16_is_linear_witness :
  p1crc16 (bytes_of_string "/A!")
  = Z.lxor (p1crc16 (bytes_of_string "/a!")) (p1crc16 [Ascii.zero; " "%char; Ascii.zero]).
Proof.
  apply (p1crc16_is_linear (bytes_of_string "/a!") [Ascii.zero; " "%char; Ascii.zero]
           (bytes_of_string "/A!")).
  repeat constructor.
Defined.

(** X24: zero bytes in front of the data do not change the checksum: the
    accumulator starts at 0 and a zero byte leaves a zero accumulator at
    zero. *)
Theorem p1crc16_ignores_leading_zero_bytes (n : nat) (data : list byte) :
  p1crc16 (repeat Ascii.zero n ++ data) = p1crc16 data.
Proof.
  rewrite !p1crc16_fold, fold_left_app. f_equal.
  induction n as [|n IH]; [reflexivity|exact IH].
Qed.

Lemma byte_to_Z_of_Z (z : Z) :
  (0 <= z < 256)%Z -> byte_to_Z (ascii_of_N (Z.to_N z)) = z.
Proof.
  intros H. unfold byte_to_Z. rewrite N_ascii_embedding by lia. lia.
Qed.

(** X23: the data followed by its checksum, low byte first, has the
    checksum 0. *)
Theorem p1crc16_of_data_and_checksum (data : list byte) :
  p1crc16 (data ++ [ascii_of_N (Z.to_N (p1crc16 data mod 256));
                    ascii_of_N (Z.to_N (p1crc16 data / 256))])
  = 0%Z.
Proof.
  assert (Hr : (0 <= p1crc16 data < 65536)%Z).
  { rewrite p1crc16_updateNoXOR,
      (updateNoXOR_checksum_from _ _ IBMTable_entries).
    apply checksum_from_uint16. lia. }
  rewrite !p1crc16_fold, fold_left_app. rewrite <- p1crc16_fold.
  set (crc := p1crc16 data) in *. cbn [fold_left]. unfold crc_step at 2.
  rewrite byte_to_Z_of_Z by (apply Z.mod_pos_bound; lia).
  rewrite low_byte_mod, Z.lxor_nilpotent, shiftr_8_div.
  change (crc16.entry crc16.IBMTable 0) with 0%Z. rewrite Z.lxor_0_l.
  unfold crc_step.
  rewrite byte_to_Z_of_Z
    by (split; [apply Z.div_pos; lia|apply Z.div_lt_upper_bound; lia]).
  rewrite low_byte_mod, shiftr_8_div.
  rewrite (Z.mod_small (crc / 256) 256)
    by (split; [apply Z.div_pos; lia|apply Z.div_lt_upper_bound; lia]).
  rewrite Z.lxor_nilpotent.
  rewrite (Z.div_small (crc / 256) 256)
    by (split; [apply Z.div_pos; lia|apply Z.div_lt_upper_bound; lia]).
  reflexivity.
Qed.

Lemma Split_nonempty (s sep : string) : strings.Split s sep <> [].
Proof. apply genSplit_nonempty. Qed.

Lemma parse_lines_values (ls : list string) :
  forall i result m err,
    map_Forall (fun _ vs => vs <> []) result ->
    parse_lines i ls result = Returns (Some m, err) ->
    map_Forall (fun (_ : string) (vs : list string) => vs <> []) m.
Proof.
  induction ls as [|l ls IH]; intros i result m err Hres H; cbn [parse_lines] in H.
  - inversion H; subst. exact Hres.
  - destruct (strings.Index l "(") as [k|]; [|discriminate].
    destruct (strings.slice l 0 k) as [idCode|]; [|discriminate].
    cbn [mbind outcome_bind] in H.
    destruct (strings.slice l (k + 1) (String.length l - 1)) as [values|];
      [|discriminate].
    cbn [mbind outcome_bind] in H.
    apply IH in H; [exact H|].
    apply map_Forall_insert_2; [apply Split_nonempty|exact Hres].
Qed.

(** X8: every identifier in a map that [Parse] returns has at least one
    value (a line "id()" gives the one value ""), so the first value of a
    key that is present can be taken without a bounds check. *)
Theorem Parse_values_are_never_empty
    (t : Telegram) (m : gmap string (list string)) (err : option error)
    (id : string) (vs : list string) :
  Parse t = Returns (Some m, err) -> m !! id = Some vs -> vs <> [].
Proof.
  unfold Parse. intros H Hid.
  destruct (_ <? _)%nat; [discriminate|].
  destruct (index_list _ 0) as [line0|]; [|discriminate]. cbn [mbind outcome_bind] in H.
  destruct (strings.at_index line0 0) as [c|]; [|discriminate].
  cbn [mbind outcome_bind] in H.
  destruct (negb (Ascii.eqb c "/")); [discriminate|].
  destruct (index_list _ 1) as [line1|]; [|discriminate]. cbn [mbind outcome_bind] in H.
  destruct (negb (String.length line1 =? 0)); [discriminate|].
  destruct (slice_list _ 2 _) as [dataLines|]; [|discriminate].
  cbn [mbind outcome_bind] in H.
  apply parse_lines_values in H; [|apply map_Forall_empty].
  exact (H id vs Hid).
Qed.

Lemma Parse_values_are_never_empty_witness :
  Parse (telegram_of_lines
           ("/ISk5\2MT382-1000" :: "" :: map render_line sample_records ++ ["!"]))
  = Returns (Some (list_to_map (reverse sample_records)), None)
  /\ (list_to_map (reverse sample_records) : gmap string (list string)) !! "1-0:1.7.0"
     = Some ["0002.000*kW"]
  /\ ["0002.000*kW"] <> ([] : list string).
Proof.
  assert (H1 : Parse (telegram_of_lines
                        ("/ISk5\2MT382-1000" :: ""
                         :: map render_line sample_records ++ ["!"]))
               = Returns (Some (list_to_map (reverse sample_records)), None))
    by (vm_compute; reflexivity).
  assert (H2 : (list_to_map (reverse sample_records) : gmap string (list string))
               !! "1-0:1.7.0" = Some ["0002.000*kW"])
    by (vm_compute; reflexivity).
  split; [exact H1|]. split; [exact H2|].
  exact (Parse_values_are_never_empty _ _ _ _ _ H1 H2).
Defined.

(** ** The example program *)

(** X25: the example program does not look at the error of [Parse]: on a
    telegram that [Parse] rejects, and on one whose map has no entry
    "0-0:1.0.0", the pass prints "Received telegram" and then panics on
    [r["0-0:1.0.0"][0]]; the telegrams behind it are never handled. *)
Theorem p1read_panics_without_timestamp
    (Time Location : Type) (zeroTime : Time)
    (LoadLocation : string -> Location * option error)
    (ParseInLocation : string -> string -> Location -> Time * option error)
    (t : Telegram) (r : option (gmap string (list string))) (err : option error)
    (ts : list Telegram) :
  Parse t = Returns (r, err) ->
  (forall m, r = Some m -> m !! "0-0:1.0.0" = None) ->
  p1read.consume Time Location zeroTime LoadLocation ParseInLocation (t :: ts)
  = ([p1read.print_text Time "Received telegram"], Some index_out_of_range).
Proof.
  intros HParse Hkey. cbn [p1read.consume]. unfold p1read.handle. rewrite HParse.
  assert (E : p1read.map_index r "0-0:1.0.0" = []).
  { destruct r as [m|]; [|reflexivity]. cbn [p1read.map_index].
    rewrite (Hkey m eq_refl). reflexivity. }
  rewrite E. reflexivity.
Qed.

Lemma p1read_panics_without_timestamp_witness :
  p1read.consume unit unit tt (fun _ => (tt, None)) (fun _ _ _ => (tt, None))
    [telegram_of_lines ["/ISk5\2MT382-1000"; ""; "1-0:1.7.0"; "!"];
     telegram_of_lines
       ("/ISk5\2MT382-1000" :: "" :: map render_line sample_records ++ ["!"])]
  = ([p1read.print_text unit "Received telegram"], Some index_out_of_range).
Proof.
  apply (p1read_panics_without_timestamp unit unit tt
           (fun _ => (tt, None)) (fun _ _ _ => (tt, None))
           (telegram_of_lines ["/ISk5\2MT382-1000"; ""; "1-0:1.7.0"; "!"])
           None (Some (errors_New "Expected '(', not found on line0"))).
  - vm_compute. reflexivity.
  - discriminate.
Defined.

(** ** From the wire to the records *)

Lemma bytes_of_string_append (a b : string) :
  bytes_of_string (a +:+ b) = bytes_of_string a ++ bytes_of_string b.
Proof.
  induction a as [|c a IH]; [reflexivity|].
  change (bytes_of_string (String c a +:+ b)) with (c :: bytes_of_string (a +:+ b)).
  rewrite IH. reflexivity.
Qed.

Lemma append_assoc (a b c : string) : (a +:+ b) +:+ c = a +:+ b +:+ c.
Proof.
  induction a as [|x a IH]; [reflexivity|].
  change ((String x a +:+ b) +:+ c) with (String x ((a +:+ b) +:+ c)).
  rewrite IH. reflexivity.
Qed.

Lemma Join_snoc (pieces : list string) (x sep : string) :
  pieces <> [] -> Join (pieces ++ [x]) sep = Join pieces sep +:+ sep +:+ x.
Proof.
  induction pieces as [|p ps IH]; intros Hne; [congruence|].
  destruct ps as [|q ps]; [reflexivity|].
  change (Join ((p :: q :: ps) ++ [x]) sep)
    with (p +:+ sep +:+ Join ((q :: ps) ++ [x]) sep).
  rewrite IH by discriminate.
  change (Join (p :: q :: ps) sep) with (p +:+ sep +:+ Join (q :: ps) sep).
  rewrite !append_assoc. reflexivity.
Qed.

Lemma render_line_absent_end (r : string * list string) :
  sendable_record r -> absent "!"%char (render_line r).
Proof.
  intros (_ & Hid & Hvs). unfold render_line.
  rewrite !absent_append. repeat split; try by_computation; [exact Hid|].
  apply absent_Join; [exact Hvs|by_computation].
Qed.

Lemma render_telegram_is_body (h : string) (records : list (string * list string)) :
  absent "!"%char h -> Forall sendable_record records ->
  exists middle, render_telegram h records = body middle /\ "!"%char ∉ middle.
Proof.
  intros Hh Hall.
  exists (bytes_of_string (Join (h :: "" :: map render_line records) CRLF +:+ CRLF)).
  split.
  - unfold render_telegram, telegram_of_lines, body.
    change (String "/" h :: "" :: map render_line records ++ ["!"])
      with ((String "/" h :: "" :: map render_line records) ++ ["!"]).
    rewrite Join_snoc by discriminate.
    change (Join (String "/" h :: "" :: map render_line records) CRLF)
      with (String "/" (Join (h :: "" :: map render_line records) CRLF)).
    set (j := Join (h :: "" :: map render_line records) CRLF).
    change (String "/" j +:+ CRLF +:+ "!") with (String "/" (j +:+ CRLF +:+ "!")).
    cbn [bytes_of_string list_ascii_of_string]. f_equal.
    fold (bytes_of_string (j +:+ CRLF +:+ "!")).
    rewrite <- append_assoc, bytes_of_string_append. reflexivity.
  - apply absent_append. split; [|by_computation].
    apply absent_Join; [|by_computation].
    constructor; [exact Hh|]. constructor; [apply absent_nil|].
    apply Forall_fmap. eapply Forall_impl; [exact Hall|].
    intros r Hr. apply render_line_absent_end. exact Hr.
Qed.

(** X21: from the meter to the records. A telegram written from a header
    and records (no carriage return, no end delimiter in them, no opening
    parenthesis in an identifier, no closing one in a value), put on the
    wire with its checksum trailer, is sent by the reader as it was
    written, and [Parse] reads the records back from it; of records with
    the same identifier the last one stays. *)
Theorem telegram_travels_from_wire_to_records
    (h : string) (records : list (string * list string)) :
  absent CR h -> absent "!"%char h -> Forall sendable_record records ->
  exists q,
    startPolling (stream (render_telegram h records
                          ++ trailer_of (render_telegram h records)))
    = Some q
    /\ sent q = [render_telegram h records]
    /\ closed q = true
    /\ Parse (render_telegram h records)
       = Returns (Some (list_to_map (reverse records)), None).
Proof.
  intros HCR Hend Hall.
  assert (Hwf : Forall well_formed_record records).
  { eapply Forall_impl; [exact Hall|]. intros r [Hr _]. exact Hr. }
  destruct (render_telegram_is_body h records Hend Hall) as (middle & Hbody & Hmid).
  destruct (poll_loop_clean_frames [] [([], middle)]) with
    (p := on_entry (stream (render_telegram h records
                            ++ trailer_of (render_telegram h records))))
    as (q & Hq & Hs & _ & _).
  - apply not_elem_of_nil.
  - repeat constructor; [apply not_elem_of_nil|exact Hmid].
  - cbn [on_entry br bufio.NewReader bufio.src wire_of app].
    rewrite Hbody, !app_nil_r. reflexivity.
  - exists (close q). split; [exact (startPolling_from_loop _ _ _ Hq)|].
    cbn [close sent closed]. split; [rewrite Hs, Hbody; reflexivity|].
    split; [reflexivity|].
    unfold render_telegram. rewrite Parse_of_lines.
    + rewrite parse_lines_rendered by exact Hwf.
      rewrite foldl_insert_list_to_map. reflexivity.
    + exact HCR.
    + apply rendered_absent_CR. exact Hwf.
    + by_computation.
Qed.

Lemma telegram_travels_from_wire_to_records_witness :
  exists q,
    startPolling (stream (render_telegram "ISk5\2MT382-1000" sample_records
                          ++ trailer_of (render_telegram "ISk5\2MT382-1000" sample_records)))
    = Some q
    /\ sent q = [render_telegram "ISk5\2MT382-1000" sample_records]
    /\ closed q = true
    /\ Parse (render_telegram "ISk5\2MT382-1000" sample_records)
       = Returns (Some (list_to_map (reverse sample_records)), None).
Proof.
  apply (telegram_travels_from_wire_to_records "ISk5\2MT382-1000" sample_records);
    by_computation.
Defined.

(** ** The pacing reader *)

Lemma IndexByte_None (b : list byte) (c : byte) :
  delayed.IndexByte b c = None -> c ∉ b.
Proof.
  induction b as [|x b IH]; cbn [delayed.IndexByte]; intros H; [apply not_elem_of_nil|].
  destruct (Ascii.eqb_spec x c) as [->|Hne]; [discriminate|].
  destruct (delayed.IndexByte b c); [discriminate|].
  apply not_elem_of_cons. split; [congruence|apply IH; reflexivity].
Qed.

Lemma IndexByte_Some (b : list byte) (c : byte) :
  forall i, delayed.IndexByte b c = Some i -> (c ∉ take i b) /\ i < length b.
Proof.
  induction b as [|x b IH]; cbn [delayed.IndexByte]; intros i H; [discriminate|].
  destruct (Ascii.eqb_spec x c) as [->|Hne].
  - inversion H; subst. split; [apply not_elem_of_nil|simpl; lia].
  - destruct (delayed.IndexByte b c) as [j|]; [|discriminate].
    inversion H; subst. destruct (IH j eq_refl) as [Hnot Hlen].
    split; [|simpl; lia]. cbn [take].
    apply not_elem_of_cons. split; [congruence|exact Hnot].
Qed.

Lemma take_take_prefix {A} (n m : nat) (l : list A) :
  n <= m -> take n l = take n (take m l).
Proof. intros H. rewrite take_take. f_equal. lia. Qed.

Lemma not_elem_of_take {A} (x : A) (n : nat) (l : list A) : x ∉ l -> x ∉ take n l.
Proof.
  intros Hnot Hin. apply Hnot. rewrite <- (take_drop n l). apply elem_of_app. auto.
Qed.

(** X26: a call of [delayedReader.Read] takes a piece from the front of
    the input without changing it, never more than the slice holds, and in
    the piece a start delimiter can only be the first byte: no call hands
    out the start of a telegram together with bytes that stand before it. *)
Theorem delayedRead_releases_one_telegram_start
    (size p_len : nat) (rest : list byte) :
  delayed.chunk (delayed.delayedRead size p_len rest)
  ++ delayed.left (delayed.delayedRead size p_len rest) = rest
  /\ length (delayed.chunk (delayed.delayedRead size p_len rest)) <= p_len
  /\ "/"%char ∉ drop 1 (delayed.chunk (delayed.delayedRead size p_len rest)).
Proof.
  unfold delayed.delayedRead.
  set (tmp := delayed.Peek size p_len rest).
  assert (Htmp : tmp = take (p_len `min` size) rest) by reflexivity.
  assert (Hlen : length tmp <= p_len) by (rewrite Htmp, length_take; lia).
  assert (Hread : forall n w, n <= p_len ->
            ("/"%char ∉ drop 1 (take (n `min` length tmp) tmp)) ->
            let r := delayed.answer (delayed.Read tmp n rest) w in
            delayed.chunk r ++ delayed.left r = rest
            /\ length (delayed.chunk r) <= p_len
            /\ "/"%char ∉ drop 1 (delayed.chunk r)).
  { intros n w Hn Hnot. unfold delayed.Read.
    destruct tmp as [|x tmp'] eqn:E.
    - destruct (n =? 0); cbn; repeat split; try lia; apply not_elem_of_nil.
    - cbn [delayed.answer delayed.chunk delayed.left fst snd].
      split; [apply take_drop|]. split; [rewrite length_take; lia|].
      rewrite (take_take_prefix _ (p_len `min` size)) by (rewrite Htmp, length_take; lia).
      rewrite <- Htmp. exact Hnot. }
  destruct (delayed.IndexByte tmp "/") as [[|i1]|] eqn:E1.
  - destruct tmp as [|x tmp'] eqn:Etmp; [discriminate|].
    cbn [delayed.IndexByte] in E1.
    destruct (Ascii.eqb_spec x "/") as [->|]; [|destruct (delayed.IndexByte tmp' "/"); discriminate].
    change (drop 1 ("/"%char :: tmp')) with tmp'.
    destruct (delayed.IndexByte tmp' "/") as [i2|] eqn:E2.
    + apply IndexByte_Some in E2 as [Hnot Hi2].
      apply Hread; [simpl in Hlen; lia|].
      rewrite Nat.min_l by (simpl; lia).
      destruct i2 as [|i2]; [apply not_elem_of_nil|].
      cbn [take drop]. rewrite <- (take_drop i2 (take (S i2) tmp')) in Hnot.
      rewrite take_take in Hnot. rewrite Nat.min_l in Hnot by lia.
      rewrite not_elem_of_app in Hnot. apply Hnot.
    + apply IndexByte_None in E2. apply Hread; [lia|].
      rewrite Nat.min_r by exact Hlen. rewrite firstn_all. exact E2.
  - apply IndexByte_Some in E1 as [Hnot Hi1].
    apply Hread; [lia|]. rewrite Nat.min_l by lia.
    intros Hin. apply Hnot. rewrite <- (take_drop 1 (take (S i1) tmp)).
    apply elem_of_app. right. exact Hin.
  - apply IndexByte_None in E1. apply Hread; [lia|].
    intros Hin. apply E1. rewrite <- (take_drop (p_len `min` length tmp) tmp).
    apply elem_of_app. left. rewrite <- (take_drop 1 (take _ tmp)).
    apply elem_of_app. right. exact Hin.
Qed.

Lemma delayedRead_two_delimiters (size p_len : nat) (rest : list byte) :
  2 <= size -> 2 <= p_len ->
  delayed.delayedRead size p_len ("/"%char :: "/"%char :: rest)
  = {| delayed.chunk := []; delayed.err := None;
       delayed.left := "/"%char :: "/"%char :: rest; delayed.waited := true |}.
Proof.
  intros Hsize Hlen. unfold delayed.delayedRead, delayed.Peek.
  destruct (p_len `min` size) as [|[|n]] eqn:E; [lia|lia|].
  reflexivity.
Qed.

(** X27: two start delimiters in a row stop the pacing reader. Each call
    waits for the ticker and then returns no byte and no error (it reads
    into [p[:i2]] with [i2 = 0], the index of the second delimiter behind
    the first), so the input is never read past them, however often [Read]
    is called. *)
Theorem delayedRead_stalls_on_two_delimiters
    (size p_len k : nat) (rest : list byte) :
  2 <= size -> 2 <= p_len ->
  delayed.delayedReads size k p_len ("/"%char :: "/"%char :: rest)
  = (repeat [] k, "/"%char :: "/"%char :: rest)
  /\ delayed.err (delayed.delayedRead size p_len ("/"%char :: "/"%char :: rest)) = None
  /\ delayed.waited (delayed.delayedRead size p_len ("/"%char :: "/"%char :: rest)) = true.
Proof.
  intros Hsize Hlen. rewrite delayedRead_two_delimiters by assumption.
  split; [|split; reflexivity].
  induction k as [|k IH]; [reflexivity|].
  cbn [delayed.delayedReads]. rewrite delayedRead_two_delimiters by assumption.
  cbn [delayed.left delayed.chunk]. rewrite IH. reflexivity.
Qed.

Lemma delayedRead_stalls_on_two_delimiters_witness :
  delayed.delayedReads 4096 3 512 (bytes_of_string "//ISk5")
  = ([[]; []; []], bytes_of_string "//ISk5").
Proof.
  apply (proj1 (delayedRead_stalls_on_two_delimiters 4096 512 3 (bytes_of_string "ISk5")
                  ltac:(lia) ltac:(lia))).
Defined.

(** X17: a frame is sent exactly when the line behind its end delimiter
    has six bytes, the line feed included, of which the first four are the
    checksum digits; the byte between the digits and the line feed is not
    looked at, so any byte is accepted in the place of the carriage
    return. *)
Theorem frame_is_sent_iff_trailer_is_accepted
    (noise middle x tail : list byte) :
  "/"%char ∉ noise -> "!"%char ∉ middle -> LF ∉ x -> "/"%char ∉ tail ->
  (exists q,
      startPolling (stream (noise ++ body middle ++ (x ++ [LF]) ++ tail)) = Some q
      /\ closed q = true
      /\ sent q = (if accepts (body middle) (x ++ [LF]) then [body middle] else []))
  /\ (forall c : byte,
         x = bytes_of_string (Sprintf_04X (p1crc16 (body middle))) ++ [c] ->
         accepts (body middle) (x ++ [LF]) = true).
Proof.
  intros Hnoise Hmid Hx Htail. split.
  - set (input := stream _).
    destruct (iteration_frame (on_entry input) noise middle x
                (stream (wire_of [] ++ tail)))
      as (p1 & E1 & S1 & C1 & D1); try assumption.
    { unfold input. cbn [on_entry br bufio.NewReader bufio.src wire_of app].
      rewrite !stream_app, <- !app_assoc. reflexivity. }
    destruct (poll_loop_clean_frames tail [] Htail (Forall_nil_2 _) p1 S1)
      as (q & Hq & Hs & Hc & _).
    exists (close q). split.
    + apply (startPolling_from_loop input 2). rewrite poll_loop_S, E1. exact Hq.
    + cbn [close sent closed map] in *. split; [reflexivity|].
      rewrite Hs, app_nil_r. destruct (accepts _ _); destruct D1 as [-> _]; reflexivity.
  - intros c ->. unfold accepts, Sprintf_04X, bytes_of_string, string_of_bytes.
    rewrite list_ascii_of_string_of_list_ascii. cbn [app length Nat.eqb take andb].
    apply String.eqb_refl.
Qed.

Lemma frame_is_sent_iff_trailer_is_accepted_witness :
  exists q,
    startPolling (stream (bytes_of_string "xx" ++ body (bytes_of_string "a")
                          ++ (bytes_of_string "41D8;" ++ [LF]) ++ []))
    = Some q
    /\ closed q = true
    /\ sent q = [body (bytes_of_string "a")].
Proof.
  destruct (frame_is_sent_iff_trailer_is_accepted
              (bytes_of_string "xx") (bytes_of_string "a") (bytes_of_string "41D8;") [])
    as [(q & H1 & H2 & H3) _]; try by_computation.
  exists q. split; [exact H1|]. split; [exact H2|]. exact H3.
Defined.

(** ** Inputs that end inside a frame *)

Lemma within_prepend (a s : list item) (ts : list Telegram) :
  within s ts -> within (a ++ s) ts.
Proof.
  intros H. destruct H as [s|before t rest ts Hh Hl Hw]; [constructor|].
  rewrite app_assoc. constructor; assumption.
Qed.

(** A telegram ends with the end delimiter, so on a wire whose last part
    [cut] holds no end delimiter every framed telegram ends before [cut]. *)
Lemma framed_within (s : list item) (ts : list Telegram) :
  framed s ts ->
  forall pre cut, s = pre ++ cut -> Data "!"%char ∉ cut -> within pre ts.
Proof.
  induction 1 as [s|before t trailer rest ts Hhead Hlast Hlen Hcrc Hlf Hfr IH];
    intros pre cut E Hcut; [constructor|].
  rewrite app_assoc in E. symmetry in E.
  apply app_eq_inv in E as [(k & E1 & E2)|(k & E1 & E2)].
  - subst pre. rewrite <- app_assoc. constructor; [exact Hhead|exact Hlast|].
    symmetry in E2. apply app_eq_inv in E2 as [(k' & E3 & E4)|(k' & E3 & E4)].
    + subst k. apply within_prepend. apply (IH k' cut E4 Hcut).
    + rewrite <- (app_nil_r k). apply within_prepend.
      apply (IH [] rest eq_refl). intros Hin. apply Hcut. subst cut.
      apply elem_of_app. right. exact Hin.
  - destruct k as [|x k _] using rev_ind.
    + rewrite app_nil_r in E1. subst pre.
      rewrite <- (app_nil_r (before ++ stream t)), <- app_assoc.
      constructor; [exact Hhead|exact Hlast|].
      apply (IH [] rest eq_refl). intros Hin. apply Hcut. subst cut.
      rewrite !elem_of_app. right. right. exact Hin.
    + exfalso. apply Hcut. subst cut.
      apply last_Some in Hlast as [t' ->].
      rewrite stream_app, !app_assoc in E1. apply app_inj_tail in E1 as [_ <-].
      rewrite !elem_of_app, list_elem_of_singleton. left. right. reflexivity.
Qed.

Lemma poll_loop_through_frames (rest : list item) (frames : list (list byte * list byte)) :
  Forall clean_frame frames ->
  forall p, bufio.src (br p) = stream (wire_of frames) ++ rest ->
    exists p',
      (forall fuel, poll_loop (length frames + fuel) p = poll_loop fuel p')
      /\ bufio.src (br p') = rest
      /\ sent p' = sent p ++ map (fun f => body f.2) frames
      /\ closed p' = closed p.
Proof.
  intros Hall. induction Hall as [|[noise middle] frames [Hn Hm] _ IH]; intros p Hsrc.
  - exists p. cbn [map length wire_of stream List.map app] in *.
    rewrite app_nil_r. auto.
  - cbn [fst snd] in *.
    destruct (trailer_of_shape (body middle)) as (x & Hx & HLF & Hok).
    destruct (iteration_frame p noise middle x (stream (wire_of frames) ++ rest))
      as (p1 & E1 & S1 & C1 & D1); try assumption.
    { rewrite Hsrc. cbn [wire_of]. rewrite Hx, !stream_app, <- !app_assoc.
      reflexivity. }
    rewrite Hok in D1. destruct D1 as [D1 _].
    destruct (IH p1 S1) as (p' & Hrun & Hs & Hsent & Hc).
    exists p'. split; [|split; [exact Hs|split]].
    + intros fuel. cbn [length Nat.add]. rewrite poll_loop_S, E1. apply Hrun.
    + cbn [map snd]. rewrite Hsent, D1, <- app_assoc. reflexivity.
    + congruence.
Qed.

(** C9: whatever the input, the reader comes to an end and closes the
    channel, and every telegram it sent is a complete frame, with its
    checked trailer behind it on the wire. When the input ends in a part
    [cut] without an end delimiter (a frame cut off behind its start
    delimiter, or bytes in which the start delimiter is still sought),
    every telegram sent lies wholly in the part [pre] before it: nothing of
    the cut-off frame is sent. This holds for every [pre]: noise with
    delimiters in it, any number of frames, failed reads. In particular an
    input without any end delimiter sends nothing, and behind any number of
    well-formed frames a cut-off part adds nothing to the frames sent. The
    channel carries telegrams only: no error reaches the consumer. *)
Theorem reader_stops_on_cut_off_frame :
  (forall pre cut : list item,
      Data "!"%char ∉ cut ->
      exists q,
        startPolling (pre ++ cut) = Some q
        /\ closed q = true
        /\ framed (pre ++ cut) (sent q)
        /\ within pre (sent q))
  /\ (forall s : list item,
         Data "!"%char ∉ s ->
         exists q, startPolling s = Some q /\ sent q = [] /\ closed q = true)
  /\ (forall (frames : list (list byte * list byte)) (cut : list byte),
         Forall clean_frame frames -> "!"%char ∉ cut ->
         exists q,
           startPolling (stream (wire_of frames ++ cut)) = Some q
           /\ sent q = map (fun f => body f.2) frames
           /\ closed q = true).
Proof.
  split; [|split].
  - intros pre cut Hcut.
    destruct (poll_loop_terminates (S (length (pre ++ cut))) (on_entry (pre ++ cut)))
      as [q Hq]; [simpl; lia|].
    exists (close q). split; [unfold startPolling; rewrite Hq; reflexivity|].
    apply poll_loop_inv in Hq as (_ & new & Hsent & Hfr).
    cbn [on_entry sent br bufio.NewReader bufio.src app] in Hsent, Hfr.
    cbn [close sent closed]. rewrite Hsent.
    split; [reflexivity|]. split; [exact Hfr|].
    exact (framed_within _ _ Hfr pre cut eq_refl Hcut).
  - intros s Hnot.
    destruct (poll_loop_terminates (S (length s)) (on_entry s)) as [q Hq];
      [simpl; lia|].
    exists (close q). split; [unfold startPolling; rewrite Hq; reflexivity|].
    apply poll_loop_without_end_delimiter in Hq as [Hsent _]; [|exact Hnot].
    split; [exact Hsent|reflexivity].
  - intros frames cut Hall Hcut.
    set (input := stream (wire_of frames ++ cut)).
    destruct (poll_loop_through_frames (stream cut) frames Hall (on_entry input))
      as (p' & Hrun & Hsrc & Hsent & _).
    { unfold input. cbn [on_entry br bufio.NewReader bufio.src].
      apply stream_app. }
    destruct (poll_loop_terminates (S (length (bufio.src (br p')))) p') as [q Hq];
      [lia|].
    exists (close q). split.
    + apply (startPolling_from_loop input
               (length frames + S (length (bufio.src (br p'))))).
      rewrite Hrun. exact Hq.
    + apply poll_loop_without_end_delimiter in Hq as [Hq _].
      * cbn [close sent closed]. rewrite Hq, Hsent. auto.
      * rewrite Hsrc, stream_elem. exact Hcut.
Qed.

Lemma reader_stops_on_cut_off_frame_witness :
  (exists q,
      startPolling (stream (bytes_of_string "a!") ++ stream (bytes_of_string "b/HDR"))
      = Some q
      /\ closed q = true
      /\ framed (stream (bytes_of_string "a!") ++ stream (bytes_of_string "b/HDR"))
           (sent q)
      /\ within (stream (bytes_of_string "a!")) (sent q))
  /\ (exists q, startPolling (stream (bytes_of_string "xx/HDR")) = Some q
                /\ sent q = [] /\ closed q = true)
  /\ (exists q,
        startPolling
          (stream (wire_of [(bytes_of_string "xx", bytes_of_string "a");
                            ([], bytes_of_string "c")]
                   ++ bytes_of_string "/HDR"))
        = Some q
        /\ sent q = [body (bytes_of_string "a"); body (bytes_of_string "c")]
        /\ closed q = true).
Proof.
  split; [|split].
  - apply (proj1 reader_stops_on_cut_off_frame).
    apply (bool_decide_unpack _); vm_compute; reflexivity.
  - apply (proj1 (proj2 reader_stops_on_cut_off_frame)).
    apply (bool_decide_unpack _); vm_compute; reflexivity.
  - apply (proj2 (proj2 reader_stops_on_cut_off_frame)
             [(bytes_of_string "xx", bytes_of_string "a"); ([], bytes_of_string "c")]
             (bytes_of_string "/HDR"));
      apply (bool_decide_unpack _); vm_compute; reflexivity.
Defined.
